(** * TouchState: per-device touch-ownership arbitration of the input dispatcher

    A shallow embedding of
    [services/inputflinger/dispatcher/TouchState.cpp] and the properties of
    its operations.  The windows vector is a [list], bit sets are integers
    with [Z.land], [Z.lor], [Z.lxor], and the process-terminating assertion of
    [getTouchedWindow] is an explicit outcome. *)

From Stdlib Require Import ZArith List Bool Lia Btauto.
From stdpp Require Import base decidable option list numbers gmap sets strings pretty.

Local Open Scope Z_scope.

(** ** Fixed-width bit sets: [std::bitset<MAX_POINTER_ID + 1>] *)

(** Modelled from the spec: the constant [MAX_POINTER_ID] comes from a header
    that is not part of the sources at hand; the data model gives the pointer
    id range as 0..=MAX_POINTER_ID, "e.g. 0..=31". *)
Definition MAX_POINTER_ID : Z := 31.

Module BitSet.

(** Number of bits of the set. *)
Definition size : Z := MAX_POINTER_ID + 1.

(** [operator~]: every one of the [size] bits is flipped. *)
Definition complement (b : Z) : Z := Z.lxor b (Z.ones size).

(** [a &= ~b]. *)
Definition and_not (a b : Z) : Z := Z.land a (complement b).

(** [none()]. *)
Definition none (b : Z) : bool := b =? 0.

(** [any()]. *)
Definition any (b : Z) : bool := negb (none b).

End BitSet.

(** ** Flag sets: [ftl::Flags<F>] over an enum with underlying type [uint32_t] *)

Module Flags.

(** Modelled from the spec: [ftl/flags.h] is not part of the sources at hand.
    The data model calls the dispatch flags "a bit flag set"; the operations
    that TouchState.cpp calls are rendered on the 32-bit value of the set.
    [test f]: every bit of [f] is set ("flags include f"). *)
Definition test (flags f : Z) : bool := Z.land f flags =? f.

(** Modelled from the spec: [any m] of [ftl/flags.h], some bit of [m] is set. *)
Definition any (flags m : Z) : bool := negb (Z.land flags m =? 0).

(** Modelled from the spec: [clear m] of [ftl/flags.h], the bits of [m] are
    removed; the complement is taken on 32 bits. *)
Definition clear (flags m : Z) : Z := Z.land flags (Z.lnot m mod 2 ^ 32).

(** Modelled from the spec: [|=] and [|] of [ftl/flags.h], bitwise or. *)
Definition union (flags m : Z) : Z := Z.lor flags m.

(** An enumerator of a flag enum: exactly one of the 32 bits. *)
Definition is_flag (f : Z) : Prop := exists n, 0 <= n < 32 /\ f = Z.shiftl 1 n.

End Flags.

(** ** Constants and interfaces supplied by headers outside this file *)

(** The enumerators of [InputTarget::Flags] that TouchState.cpp names, and
    [InputTarget::DISPATCH_MASK].  Their numeric values live in InputTarget.h;
    they are left as parameters, and each theorem lists what it needs to know
    about them. *)
Class InputTargetFlags := {
  FOREGROUND : Z;
  DISPATCH_AS_IS : Z;
  DISPATCH_AS_SLIPPERY_EXIT : Z;
  DISPATCH_AS_SLIPPERY_ENTER : Z;
  DISPATCH_MASK : Z
}.

(** What TouchState.cpp uses of [sp<WindowInfoHandle>]: comparison of two
    handles ([==] on [sp] compares the objects' identity), [getToken()],
    [getInfo()->inputConfig], [getName()], and the enumerator
    [WindowInfo::InputConfig::SLIPPERY].  A token ([sp<IBinder>]) is compared
    by identity as well and is represented by an integer. *)
Class WindowInfoHandleOps (WindowInfoHandle : Type) := {
  handle_eq_dec :: EqDecision WindowInfoHandle;
  getToken : WindowInfoHandle -> Z;
  inputConfig : WindowInfoHandle -> Z;
  getName : WindowInfoHandle -> string;
  SLIPPERY : Z
}.

Section TouchState.

Context {WindowInfoHandle : Type}.
Context {handleOps : WindowInfoHandleOps WindowInfoHandle}.
Context {targetFlagValues : InputTargetFlags}.

(** ** TouchedWindow *)

(** Modelled from the spec: TouchedWindow.h is not part of the sources at hand.
    The fields are those of the spec's Window Touch Record, under the names
    TouchState.cpp uses for them; the hovering pointers are the spec's "set of
    (deviceId, pointerId) pairs". *)
Record TouchedWindow := mkTouchedWindow {
  windowHandle : WindowInfoHandle;
  targetFlags : Z;
  pointerIds : Z;
  pilferedPointerIds : Z;
  firstDownTimeInTarget : option Z;
  hoveringPointers : gset (Z * Z)
}.

Definition set_targetFlags (f : Z) (w : TouchedWindow) : TouchedWindow :=
  mkTouchedWindow (windowHandle w) f (pointerIds w) (pilferedPointerIds w)
    (firstDownTimeInTarget w) (hoveringPointers w).

Definition set_pointerIds (p : Z) (w : TouchedWindow) : TouchedWindow :=
  mkTouchedWindow (windowHandle w) (targetFlags w) p (pilferedPointerIds w)
    (firstDownTimeInTarget w) (hoveringPointers w).

Definition set_firstDownTimeInTarget (t : option Z) (w : TouchedWindow) : TouchedWindow :=
  mkTouchedWindow (windowHandle w) (targetFlags w) (pointerIds w) (pilferedPointerIds w)
    t (hoveringPointers w).

Definition set_hoveringPointers (h : gset (Z * Z)) (w : TouchedWindow) : TouchedWindow :=
  mkTouchedWindow (windowHandle w) (targetFlags w) (pointerIds w) (pilferedPointerIds w)
    (firstDownTimeInTarget w) h.

(** Modelled from the spec: the default member values of TouchedWindow.h are
    not part of the sources at hand.  A default-constructed record that then
    receives its window handle is "flags-empty, touch-empty": no flags, no
    pointers, no down time. *)
Definition newTouchedWindow (h : WindowInfoHandle) : TouchedWindow :=
  mkTouchedWindow h 0 0 0 None ∅.

(** Modelled from the spec: TouchedWindow.cpp is not part of the sources at
    hand; its mutators are "direct set operations on the two pointer
    collections, all idempotent (removing an absent element is a no-op)".
    [TouchedWindow::removeTouchingPointer] takes the pointer id out of the
    touching set. *)
Definition removeTouchingPointer (pointerId : Z) (w : TouchedWindow) : TouchedWindow :=
  set_pointerIds (Z.clearbit (pointerIds w) pointerId) w.

(** Modelled from the spec: [TouchedWindow::clearHoveringPointers] empties
    the hovering set. *)
Definition clearHoveringPointers_window (w : TouchedWindow) : TouchedWindow :=
  set_hoveringPointers ∅ w.

(** Modelled from the spec: [TouchedWindow::addHoveringPointer] adds the
    pair to the hovering set. *)
Definition addHoveringPointer (deviceId pointerId : Z) (w : TouchedWindow) : TouchedWindow :=
  set_hoveringPointers ({[ (deviceId, pointerId) ]} ∪ hoveringPointers w) w.

(** Modelled from the spec: [TouchedWindow::removeHoveringPointer] removes
    the pair from the hovering set. *)
Definition removeHoveringPointer_window (deviceId pointerId : Z) (w : TouchedWindow)
  : TouchedWindow :=
  set_hoveringPointers (hoveringPointers w ∖ {[ (deviceId, pointerId) ]}) w.

(** Modelled from the spec: [TouchedWindow::hasHoveringPointer], membership
    of the pair in the hovering set. *)
Definition hasHoveringPointer (deviceId pointerId : Z) (w : TouchedWindow) : bool :=
  bool_decide ((deviceId, pointerId) ∈ hoveringPointers w).

(** Modelled from the spec: [TouchedWindow::hasHoveringPointers], the
    hovering set is not empty. *)
Definition hasHoveringPointers (w : TouchedWindow) : bool :=
  negb (bool_decide (hoveringPointers w = ∅)).

(** ** TouchState *)

Record TouchState := mkTouchState {
  deviceId : Z;
  source : Z;
  windows : list TouchedWindow
}.

Definition set_windows (ws : list TouchedWindow) (st : TouchState) : TouchState :=
  mkTouchState (deviceId st) (source st) ws.

(** *** Loops over [windows]

    [updateFirst p f] is the loop
    [for (TouchedWindow& w : windows) { if (p(w)) { f(w); return; } }];
    the result is [None] when the loop runs to its end without returning. *)
Fixpoint updateFirst (p : TouchedWindow -> bool) (f : TouchedWindow -> TouchedWindow)
    (ws : list TouchedWindow) : option (list TouchedWindow) :=
  match ws with
  | [] => None
  | w :: ws' =>
      if p w then Some (f w :: ws')
      else match updateFirst p f ws' with
           | Some ws'' => Some (w :: ws'')
           | None => None
           end
  end.

(** [std::erase_if(windows, p)]. *)
Definition erase_if (p : TouchedWindow -> bool) (ws : list TouchedWindow)
  : list TouchedWindow :=
  List.filter (fun w => negb (p w)) ws.

Definition sameHandle (h : WindowInfoHandle) (w : TouchedWindow) : bool :=
  bool_decide (windowHandle w = h).

(** *** The operations *)

(** Modelled from the spec: [*this = TouchState()] takes the member
    initialisers of TouchState.h, which is not part of the sources at hand;
    "no windows, identity fields cleared" is rendered as device id -1,
    source 0. *)
Definition reset (st : TouchState) : TouchState := mkTouchState (-1) 0 [].

Definition removeTouchedPointer (pointerId : Z) (st : TouchState) : TouchState :=
  set_windows (map (removeTouchingPointer pointerId) (windows st)) st.

Definition removeTouchedPointerFromWindow (pointerId : Z) (h : WindowInfoHandle)
    (st : TouchState) : TouchState :=
  match updateFirst (sameHandle h) (removeTouchingPointer pointerId) (windows st) with
  | Some ws => set_windows ws st
  | None => st
  end.

Definition clearHoveringPointers (st : TouchState) : TouchState :=
  set_windows (map clearHoveringPointers_window (windows st)) st.

Definition withoutPointers (w : TouchedWindow) : bool :=
  BitSet.none (pointerIds w) && negb (hasHoveringPointers w).

Definition clearWindowsWithoutPointers (st : TouchState) : TouchState :=
  set_windows (erase_if withoutPointers (windows st)) st.

(** The body of the [if] in [addOrUpdateWindow]'s loop. *)
Definition mergeIntoWindow (flags ids : Z) (firstDownTime : option Z) (w : TouchedWindow)
  : TouchedWindow :=
  let flags1 := Flags.union (targetFlags w) flags in
  let flags2 :=
    if Flags.test flags DISPATCH_AS_SLIPPERY_EXIT
    then Flags.clear flags1 DISPATCH_AS_IS
    else flags1 in
  mkTouchedWindow (windowHandle w) flags2 (Z.lor (pointerIds w) ids)
    (pilferedPointerIds w)
    (match firstDownTimeInTarget w with
     | Some t => Some t
     | None => firstDownTime
     end)
    (hoveringPointers w).

Definition addOrUpdateWindow (h : WindowInfoHandle) (flags ids : Z)
    (firstDownTime : option Z) (st : TouchState) : TouchState :=
  match updateFirst (sameHandle h) (mergeIntoWindow flags ids firstDownTime) (windows st) with
  | Some ws => set_windows ws st
  | None =>
      set_windows
        (windows st ++
           [set_firstDownTimeInTarget firstDownTime
              (set_pointerIds ids (set_targetFlags flags (newTouchedWindow h)))])
        st
  end.

Definition addHoveringPointerToWindow (h : WindowInfoHandle)
    (hoveringDeviceId hoveringPointerId : Z) (st : TouchState) : TouchState :=
  match updateFirst (sameHandle h) (addHoveringPointer hoveringDeviceId hoveringPointerId)
          (windows st) with
  | Some ws => set_windows ws st
  | None =>
      set_windows
        (windows st ++
           [addHoveringPointer hoveringDeviceId hoveringPointerId (newTouchedWindow h)])
        st
  end.

(** The index loop of [removeWindowByToken]: erase the first entry whose
    token is [token], then return. *)
Fixpoint eraseFirstByToken (token : Z) (ws : list TouchedWindow) : list TouchedWindow :=
  match ws with
  | [] => []
  | w :: ws' =>
      if bool_decide (getToken (windowHandle w) = token) then ws'
      else w :: eraseFirstByToken token ws'
  end.

Definition removeWindowByToken (token : Z) (st : TouchState) : TouchState :=
  set_windows (eraseFirstByToken token (windows st)) st.

(** The index loop of [filterNonAsIsTouchWindows]: at index [i] the entry is
    either rewritten, and [i] advances, or erased, and the rest of the vector
    moves down to [i]. *)
Definition dispatchAsIs (w : TouchedWindow) : TouchedWindow :=
  set_targetFlags (Flags.union (Flags.clear (targetFlags w) DISPATCH_MASK) DISPATCH_AS_IS) w.

Fixpoint filterNonAsIs (ws : list TouchedWindow) : list TouchedWindow :=
  match ws with
  | [] => []
  | w :: ws' =>
      if Flags.any (targetFlags w) (Flags.union DISPATCH_AS_IS DISPATCH_AS_SLIPPERY_ENTER)
      then dispatchAsIs w :: filterNonAsIs ws'
      else filterNonAsIs ws'
  end.

Definition filterNonAsIsTouchWindows (st : TouchState) : TouchState :=
  set_windows (filterNonAsIs (windows st)) st.

(** The lambda of [cancelPointersForWindowsExcept]'s [for_each]. *)
Definition cancelExcept (ids token : Z) (w : TouchedWindow) : TouchedWindow :=
  if bool_decide (getToken (windowHandle w) <> token)
  then set_pointerIds (BitSet.and_not (pointerIds w) ids) w
  else w.

Definition noTouchingPointers (w : TouchedWindow) : bool := BitSet.none (pointerIds w).

Definition cancelPointersForWindowsExcept (ids token : Z) (st : TouchState) : TouchState :=
  if BitSet.none ids then st
  else set_windows (erase_if noTouchingPointers (map (cancelExcept ids token) (windows st))) st.

(** The first [for_each] of [cancelPointersForNonPilferingWindows]. *)
Definition allPilferedPointerIds (ws : list TouchedWindow) : Z :=
  fold_left (fun acc w => Z.lor acc (pilferedPointerIds w)) ws 0.

(** The lambda of its second [for_each]. *)
Definition cancelPilferedByOthers (allPilfered : Z) (w : TouchedWindow) : TouchedWindow :=
  let pilferedByOtherWindows := Z.lxor (pilferedPointerIds w) allPilfered in
  set_pointerIds (BitSet.and_not (pointerIds w) pilferedByOtherWindows) w.

Definition cancelPointersForNonPilferingWindows (st : TouchState) : TouchState :=
  let allPilfered := allPilferedPointerIds (windows st) in
  if BitSet.none allPilfered then st
  else set_windows
         (erase_if noTouchingPointers (map (cancelPilferedByOthers allPilfered) (windows st)))
         st.

Definition isForeground (w : TouchedWindow) : bool :=
  Flags.test (targetFlags w) FOREGROUND.

Definition isSlipperyWindow (w : TouchedWindow) : bool :=
  Flags.test (inputConfig (windowHandle w)) SLIPPERY.

Fixpoint getFirstForegroundWindowHandle_loop (ws : list TouchedWindow)
  : option WindowInfoHandle :=
  match ws with
  | [] => None
  | w :: ws' =>
      if isForeground w then Some (windowHandle w)
      else getFirstForegroundWindowHandle_loop ws'
  end.

(** [nullptr] is [None]. *)
Definition getFirstForegroundWindowHandle (st : TouchState) : option WindowInfoHandle :=
  getFirstForegroundWindowHandle_loop (windows st).

(** The loop of [isSlippery], with the local [haveSlipperyForegroundWindow]
    as an accumulator. *)
Fixpoint isSlippery_loop (haveSlipperyForegroundWindow : bool) (ws : list TouchedWindow)
  : bool :=
  match ws with
  | [] => haveSlipperyForegroundWindow
  | w :: ws' =>
      if isForeground w then
        if haveSlipperyForegroundWindow || negb (isSlipperyWindow w) then false
        else isSlippery_loop true ws'
      else isSlippery_loop haveSlipperyForegroundWindow ws'
  end.

Definition isSlippery (st : TouchState) : bool := isSlippery_loop false (windows st).

(** What a call that may hit [LOG_ALWAYS_FATAL_IF] does: it returns a value,
    or the process is terminated with a diagnostic. *)
Inductive outcome (A : Type) : Type :=
| Returns (a : A)
| Fatal (message : string).
Global Arguments Returns {A} a.
Global Arguments Fatal {A} message.

Definition getTouchedWindow (h : WindowInfoHandle) (st : TouchState) : outcome TouchedWindow :=
  match List.find (sameHandle h) (windows st) with
  | Some w => Returns w
  | None => Fatal ("Could not find " +:+ getName h)
  end.

Definition isDown (st : TouchState) : bool :=
  existsb (fun w => BitSet.any (pointerIds w)) (windows st).

Definition removeHoveringPointer (hoveringDeviceId hoveringPointerId : Z) (st : TouchState)
  : TouchState :=
  set_windows
    (erase_if withoutPointers
       (map (removeHoveringPointer_window hoveringDeviceId hoveringPointerId) (windows st)))
    st.

(** The mutating operations, as one type, and what each does to the state. *)
Inductive Operation : Type :=
| OpReset
| OpRemoveTouchedPointer (pointerId : Z)
| OpRemoveTouchedPointerFromWindow (pointerId : Z) (h : WindowInfoHandle)
| OpClearHoveringPointers
| OpClearWindowsWithoutPointers
| OpAddOrUpdateWindow (h : WindowInfoHandle) (flags ids : Z) (firstDownTime : option Z)
| OpAddHoveringPointerToWindow (h : WindowInfoHandle) (hoveringDeviceId hoveringPointerId : Z)
| OpRemoveWindowByToken (token : Z)
| OpFilterNonAsIsTouchWindows
| OpCancelPointersForWindowsExcept (ids token : Z)
| OpCancelPointersForNonPilferingWindows
| OpRemoveHoveringPointer (hoveringDeviceId hoveringPointerId : Z).

Definition run (op : Operation) (st : TouchState) : TouchState :=
  match op with
  | OpReset => reset st
  | OpRemoveTouchedPointer i => removeTouchedPointer i st
  | OpRemoveTouchedPointerFromWindow i h => removeTouchedPointerFromWindow i h st
  | OpClearHoveringPointers => clearHoveringPointers st
  | OpClearWindowsWithoutPointers => clearWindowsWithoutPointers st
  | OpAddOrUpdateWindow h f p t => addOrUpdateWindow h f p t st
  | OpAddHoveringPointerToWindow h d p => addHoveringPointerToWindow h d p st
  | OpRemoveWindowByToken t => removeWindowByToken t st
  | OpFilterNonAsIsTouchWindows => filterNonAsIsTouchWindows st
  | OpCancelPointersForWindowsExcept p t => cancelPointersForWindowsExcept p t st
  | OpCancelPointersForNonPilferingWindows => cancelPointersForNonPilferingWindows st
  | OpRemoveHoveringPointer d p => removeHoveringPointer d p st
  end.

(** A sequence of calls, first to last. *)
Definition runAll (ops : list Operation) (st : TouchState) : TouchState :=
  fold_left (fun s op => run op s) ops st.

(** The window handles of the entries, in order. *)
Definition handles (st : TouchState) : list WindowInfoHandle :=
  map windowHandle (windows st).

End TouchState.

Global Arguments TouchedWindow : clear implicits.
Global Arguments TouchState : clear implicits.
Global Arguments Operation : clear implicits.

(** ** The remaining queries *)

(** The enumerator [WindowInfo::InputConfig::IS_WALLPAPER] of gui/WindowInfo.h,
    a parameter like the other flag values. *)
Class WindowInfoInputConfig := {
  IS_WALLPAPER : Z
}.

Section Queries.

Context {WindowInfoHandle : Type}.
Context {handleOps : WindowInfoHandleOps WindowInfoHandle}.
Context {inputConfigValues : WindowInfoInputConfig}.
Context {handleCountable : Countable WindowInfoHandle}.

Definition isWallpaperWindow (w : TouchedWindow WindowInfoHandle) : bool :=
  Flags.test (inputConfig (windowHandle w)) IS_WALLPAPER.

Fixpoint getWallpaperWindow_loop (ws : list (TouchedWindow WindowInfoHandle))
  : option WindowInfoHandle :=
  match ws with
  | [] => None
  | w :: ws' =>
      if isWallpaperWindow w then Some (windowHandle w)
      else getWallpaperWindow_loop ws'
  end.

(** [nullptr] is [None]. *)
Definition getWallpaperWindow (st : TouchState WindowInfoHandle) : option WindowInfoHandle :=
  getWallpaperWindow_loop (windows st).

(** The loop of [getWindowsWithHoveringPointer]; [out.insert] adds a handle
    to the [std::set]. *)
Definition getWindowsWithHoveringPointer (hoveringDeviceId pointerId : Z)
    (st : TouchState WindowInfoHandle) : gset WindowInfoHandle :=
  fold_left
    (fun out w =>
       if hasHoveringPointer hoveringDeviceId pointerId w
       then out ∪ {[ windowHandle w ]}
       else out)
    (windows st) ∅.

(** The test of [removeWindowByToken]'s loop. *)
Definition hasToken (token : Z) (w : TouchedWindow WindowInfoHandle) : bool :=
  bool_decide (getToken (windowHandle w) = token).

(** A value that a [std::bitset<MAX_POINTER_ID + 1>] can hold. *)
Definition validPointerIds (b : Z) : Prop := 0 <= b < 2 ^ BitSet.size.

End Queries.

(** ** The exclusion of DISPATCH_AS_IS by DISPATCH_AS_SLIPPERY_EXIT *)

Section Exclusion.

Context {WindowInfoHandle : Type}.
Context {handleOps : WindowInfoHandleOps WindowInfoHandle}.
Context {targetFlagValues : InputTargetFlags}.

(** A flag set that includes DISPATCH_AS_SLIPPERY_EXIT does not include
    DISPATCH_AS_IS. *)
Definition exitExcludesAsIs (flags : Z) : Prop :=
  Flags.test flags DISPATCH_AS_SLIPPERY_EXIT = true ->
  Flags.test flags DISPATCH_AS_IS = false.

(** Every entry of the state has such a flag set. *)
Definition exclusive (st : TouchState WindowInfoHandle) : Prop :=
  Forall (fun w => exitExcludesAsIs (targetFlags w)) (windows st).

(** The calls of addOrUpdateWindow that keep the exclusion.  With no entry
    for the handle, the given flags must not include both flags; with an
    entry, the given flags include DISPATCH_AS_SLIPPERY_EXIT, or do not
    include DISPATCH_AS_IS, or the entry that the call updates does not
    include DISPATCH_AS_SLIPPERY_EXIT. *)
Definition keepsExclusion (h : WindowInfoHandle) (flags : Z)
    (st : TouchState WindowInfoHandle) : Prop :=
  match List.find (sameHandle h) (windows st) with
  | None => exitExcludesAsIs flags
  | Some e =>
      Flags.test flags DISPATCH_AS_SLIPPERY_EXIT = true
      \/ Flags.test flags DISPATCH_AS_IS = false
      \/ Flags.test (targetFlags e) DISPATCH_AS_SLIPPERY_EXIT = false
  end.

End Exclusion.

(** ** A concrete platform, for evaluating the operations

    Window handles are numbered objects; handles [2k] and [2k+1] belong to
    the same underlying window (token [k]), and the windows with an even
    token are slippery.  The flag values are one assignment of distinct bits
    with the mode bits collected in the mask. *)
Module Sample.

#[export] Instance flags : InputTargetFlags := {|
  FOREGROUND := Z.shiftl 1 0;
  DISPATCH_AS_IS := Z.shiftl 1 8;
  DISPATCH_AS_SLIPPERY_EXIT := Z.shiftl 1 12;
  DISPATCH_AS_SLIPPERY_ENTER := Z.shiftl 1 13;
  DISPATCH_MASK := Z.shiftl 63 8
|}.

#[export] Instance handleOps : WindowInfoHandleOps nat := {|
  getToken := fun h => Z.of_nat (Nat.div2 h);
  inputConfig := fun h => if Nat.even (Nat.div2 h) then Z.shiftl 1 2 else 0;
  getName := fun h => "window " +:+ pretty h;
  SLIPPERY := Z.shiftl 1 2
|}.

(** An entry with no hovering pointer. *)
Definition entry (h : nat) (flags ids pilfered : Z) (t : option Z) : TouchedWindow nat :=
  mkTouchedWindow h flags ids pilfered t ∅.

Definition state (ws : list (TouchedWindow nat)) : TouchState nat :=
  mkTouchState 0 0 ws.

(** The state after [reset()]. *)
Definition empty : TouchState nat := @reset nat (state []).

(** Pointer sets: bit [i] stands for pointer id [i]. *)
Definition p0 : Z := 1.
Definition p1 : Z := 2.
Definition p2 : Z := 4.
Definition p12 : Z := 6.

Definition DISPATCH_AS_OUTSIDE : Z := Z.shiftl 1 9.

(** Windows A (handle 0) and B (handle 2) of the pilfering scenario: both
    touch pointers 1 and 2, A pilfers pointer 1 and B pointer 2. *)
Definition windowA : TouchedWindow nat :=
  entry 0 (Z.lor FOREGROUND DISPATCH_AS_IS) p12 p1 (Some 100).
Definition windowB : TouchedWindow nat :=
  entry 2 DISPATCH_AS_IS p12 p2 (Some 100).

(** Three windows, the first two pilfering pointer 1, the third touching
    pointers 1 and 2 and pilfering nothing. *)
Definition pilferer1 : TouchedWindow nat := entry 0 DISPATCH_AS_IS p1 p1 (Some 100).
Definition pilferer2 : TouchedWindow nat := entry 2 DISPATCH_AS_IS p1 p1 (Some 100).
Definition bystander : TouchedWindow nat := entry 4 DISPATCH_AS_IS p12 0 (Some 100).

(** The two overlapping windows of the spec's end-to-end scenario. *)
Definition W1 : TouchedWindow nat := entry 0 (Z.lor FOREGROUND DISPATCH_AS_IS) p0 0 (Some 100).
Definition W2 : TouchedWindow nat := entry 2 DISPATCH_AS_OUTSIDE p0 0 None.

(** Two foreground windows, both slippery. *)
Definition F1 : TouchedWindow nat := entry 0 FOREGROUND p0 0 (Some 100).
Definition F2 : TouchedWindow nat := entry 1 FOREGROUND p1 0 (Some 100).

(** Two handles of one window (token 1). *)
Definition T2 : TouchedWindow nat := entry 2 DISPATCH_AS_IS p1 0 (Some 100).
Definition T3 : TouchedWindow nat := entry 3 DISPATCH_AS_IS p2 0 (Some 100).

End Sample.

(** ** Bit-level facts *)

Section Bits.

Lemma testbit_complement b i :
  0 <= i <= MAX_POINTER_ID ->
  Z.testbit (BitSet.complement b) i = negb (Z.testbit b i).
Proof.
  intros Hi. unfold BitSet.complement, BitSet.size, MAX_POINTER_ID in *.
  rewrite Z.lxor_spec, Z.ones_spec_low by lia.
  now destruct (Z.testbit b i).
Qed.

Lemma testbit_and_not a b i :
  0 <= i <= MAX_POINTER_ID ->
  Z.testbit (BitSet.and_not a b) i = Z.testbit a i && negb (Z.testbit b i).
Proof.
  intros Hi. unfold BitSet.and_not.
  now rewrite Z.land_spec, testbit_complement.
Qed.

Lemma test_true_iff x f :
  Flags.test x f = true <-> Z.land f x = f.
Proof. unfold Flags.test. apply Z.eqb_eq. Qed.

Lemma test_bits x f :
  Flags.test x f = true ->
  forall i, Z.testbit f i = true -> Z.testbit x i = true.
Proof.
  intros H%test_true_iff i Hi. rewrite <- H in Hi.
  rewrite Z.land_spec in Hi. now apply andb_true_iff in Hi.
Qed.

Lemma testbit_clear x m i :
  0 <= i ->
  Z.testbit (Flags.clear x m) i = Z.testbit x i && ((i <? 32) && negb (Z.testbit m i)).
Proof.
  intros Hi. unfold Flags.clear.
  rewrite Z.land_spec, Z.testbit_mod_pow2, Z.lnot_spec by lia. reflexivity.
Qed.

(** Clearing a non-empty flag makes its test fail. *)
Lemma test_clear_same x m : m <> 0 -> Flags.test (Flags.clear x m) m = false.
Proof.
  intros Hm. unfold Flags.test. apply Z.eqb_neq. intros E. apply Hm.
  rewrite <- E. apply Z.bits_inj'. intros i Hi.
  rewrite Z.land_spec, testbit_clear, Z.bits_0 by lia.
  destruct (Z.testbit m i), (Z.testbit x i), (i <? 32); reflexivity.
Qed.

(** Clearing [m] keeps a flag that is disjoint from [m] and fits in 32 bits. *)
Lemma test_clear_other x m f :
  0 <= f < 2 ^ 32 -> Z.land f m = 0 ->
  Flags.test (Flags.clear x m) f = Flags.test x f.
Proof.
  intros Hf Hd. unfold Flags.test. f_equal.
  apply Z.bits_inj'. intros i Hi.
  rewrite !Z.land_spec, testbit_clear by lia.
  assert (Hm : Z.testbit f i && Z.testbit m i = false).
  { rewrite <- Z.land_spec, Hd. apply Z.bits_0. }
  destruct (Z.ltb_spec i 32) as [Hlt|Hge].
  - destruct (Z.testbit f i), (Z.testbit m i), (Z.testbit x i); simpl in *; congruence.
  - assert (Z.testbit f i = false) as ->; [|reflexivity].
    apply (proj1 (Z.bounded_iff_bits_nonneg 32 f ltac:(lia) ltac:(lia))); lia.
Qed.

Lemma test_union_r x f m : Flags.test m f = true -> Flags.test (Flags.union x m) f = true.
Proof.
  intros H. apply test_true_iff. apply Z.bits_inj'. intros i Hi.
  unfold Flags.union. rewrite Z.land_spec, Z.lor_spec.
  pose proof (test_bits _ _ H i) as Hb.
  destruct (Z.testbit f i); [rewrite Hb by reflexivity|]; simpl; btauto.
Qed.

(** The test of a single-bit flag reads that bit. *)
Lemma test_flag_bit x n : 0 <= n -> Flags.test x (Z.shiftl 1 n) = Z.testbit x n.
Proof.
  intros Hn. rewrite Z.shiftl_1_l.
  destruct (Z.testbit x n) eqn:E.
  - apply test_true_iff. apply Z.bits_inj'. intros i Hi.
    rewrite Z.land_spec, Z.pow2_bits_eqb by lia.
    destruct (Z.eqb_spec n i); subst; [now rewrite E|reflexivity].
  - destruct (Flags.test x (2 ^ n)) eqn:T; [|reflexivity].
    rewrite <- E. symmetry. apply (test_bits _ _ T). now apply Z.pow2_bits_true.
Qed.

Lemma any_two_bits x a b :
  0 <= a -> 0 <= b ->
  Flags.any x (Flags.union (Z.shiftl 1 a) (Z.shiftl 1 b)) = Z.testbit x a || Z.testbit x b.
Proof.
  intros Ha Hb. unfold Flags.any, Flags.union. rewrite !Z.shiftl_1_l.
  destruct (Z.eqb_spec (Z.land x (Z.lor (2 ^ a) (2 ^ b))) 0) as [E|E]; simpl.
  - symmetry. apply orb_false_iff. split.
    + assert (H := f_equal (fun z => Z.testbit z a) E). simpl in H.
      rewrite Z.land_spec, Z.lor_spec, Z.pow2_bits_true, Z.bits_0 in H by lia.
      now rewrite andb_true_r in H.
    + assert (H := f_equal (fun z => Z.testbit z b) E). simpl in H.
      rewrite Z.land_spec, Z.lor_spec, (Z.pow2_bits_true b), Z.bits_0 in H by lia.
      now rewrite orb_true_r, andb_true_r in H.
  - symmetry. apply not_false_iff_true. intros F. apply orb_false_iff in F as [Fa Fb].
    apply E. apply Z.bits_inj'. intros i Hi.
    rewrite Z.land_spec, Z.lor_spec, !Z.pow2_bits_eqb, Z.bits_0 by lia.
    destruct (Z.eqb_spec a i), (Z.eqb_spec b i); subst; rewrite ?Fa, ?Fb; simpl; btauto.
Qed.

End Bits.

(** ** Properties of the operations *)

Section Properties.

Context {WindowInfoHandle : Type}.
Context {handleOps : WindowInfoHandleOps WindowInfoHandle}.
Context {targetFlagValues : InputTargetFlags}.

Local Abbreviation Window := (TouchedWindow WindowInfoHandle).
Local Abbreviation State := (TouchState WindowInfoHandle).

Implicit Types (w e : Window) (ws pre post : list Window) (st : State).
Implicit Types (h : WindowInfoHandle).

(** *** The scan for the first matching entry *)

Lemma sameHandle_true h w : sameHandle h w = true <-> windowHandle w = h.
Proof. unfold sameHandle. apply bool_decide_eq_true. Qed.

Lemma sameHandle_false h w : sameHandle h w = false <-> windowHandle w <> h.
Proof. unfold sameHandle. apply bool_decide_eq_false. Qed.

Lemma updateFirst_first p f pre e post :
  Forall (fun x => p x = false) pre -> p e = true ->
  updateFirst p f (pre ++ e :: post) = Some (pre ++ f e :: post).
Proof.
  induction 1 as [|x pre Hx _ IH]; intros He; simpl.
  - now rewrite He.
  - now rewrite Hx, IH.
Qed.

Lemma updateFirst_none p f ws :
  Forall (fun x => p x = false) ws <-> updateFirst p f ws = None.
Proof.
  induction ws as [|x ws IH]; simpl.
  - split; [reflexivity|constructor].
  - destruct (p x) eqn:Hx.
    + split; [|discriminate]. inversion 1; congruence.
    + destruct (updateFirst p f ws) eqn:E.
      * split; [|discriminate]. inversion 1; subst.
        assert (@Some (list Window) l = None) by now apply IH. discriminate.
      * split; [reflexivity|]. constructor; [assumption|now apply IH].
Qed.

Lemma updateFirst_some p f ws ws' :
  updateFirst p f ws = Some ws' ->
  exists pre e post,
    ws = pre ++ e :: post /\ Forall (fun x => p x = false) pre /\ p e = true
    /\ ws' = pre ++ f e :: post.
Proof.
  revert ws'. induction ws as [|x ws IH]; intros ws'; simpl; [discriminate|].
  destruct (p x) eqn:Hx.
  - intros [= <-]. exists [], x, ws. repeat split; auto.
  - destruct (updateFirst p f ws) eqn:E; [|discriminate].
    intros [= <-]. destruct (IH _ eq_refl) as (pre & e & post & -> & Hpre & He & ->).
    exists (x :: pre), e, post. repeat split; auto.
Qed.

Lemma updateFirst_handles p f ws ws' :
  (forall w, windowHandle (f w) = windowHandle w) ->
  updateFirst p f ws = Some ws' ->
  map windowHandle ws' = map windowHandle ws.
Proof.
  intros Hf H. apply updateFirst_some in H as (pre & e & post & -> & _ & _ & ->).
  rewrite !map_app. simpl. now rewrite Hf.
Qed.

Lemma no_handle_scan h ws :
  Forall (fun x => windowHandle x <> h) ws <-> Forall (fun x => sameHandle h x = false) ws.
Proof. apply Forall_iff. intros x. symmetry. apply sameHandle_false. Qed.

Lemma no_handle_not_elem h ws :
  Forall (fun x => windowHandle x <> h) ws <-> h ∉ map windowHandle ws.
Proof.
  induction ws as [|x ws IH]; simpl.
  - split; [intros _; apply not_elem_of_nil|constructor].
  - rewrite Forall_cons, not_elem_of_cons, IH. intuition congruence.
Qed.

(** *** addOrUpdateWindow *)

(** C1 (as amended): when an entry for the window handle exists, the first
    such entry is updated in place and nothing else changes: its flags become
    the bitwise or of the old and the new flags, with DISPATCH_AS_IS cleared
    when the new flags include DISPATCH_AS_SLIPPERY_EXIT; its touching set
    becomes the union of the old and the new pointer sets, so no bit that was
    set is lost; its first down time is taken from the call only when it had
    none.  When no entry exists, an entry with exactly the given fields is
    appended at the end. *)
Theorem addOrUpdateWindow_upsert st h flags ids firstDownTime :
  (forall pre e post,
      windows st = pre ++ e :: post ->
      windowHandle e = h ->
      Forall (fun x => windowHandle x <> h) pre ->
      exists e',
        windows (addOrUpdateWindow h flags ids firstDownTime st) = pre ++ e' :: post
        /\ windowHandle e' = h
        /\ targetFlags e' =
             (if Flags.test flags DISPATCH_AS_SLIPPERY_EXIT
              then Flags.clear (Z.lor (targetFlags e) flags) DISPATCH_AS_IS
              else Z.lor (targetFlags e) flags)
        /\ pointerIds e' = Z.lor (pointerIds e) ids
        /\ (forall i, Z.testbit (pointerIds e) i = true -> Z.testbit (pointerIds e') i = true)
        /\ firstDownTimeInTarget e' =
             match firstDownTimeInTarget e with
             | Some t => Some t
             | None => firstDownTime
             end
        /\ pilferedPointerIds e' = pilferedPointerIds e
        /\ hoveringPointers e' = hoveringPointers e)
  /\ (Forall (fun x => windowHandle x <> h) (windows st) ->
      windows (addOrUpdateWindow h flags ids firstDownTime st) =
        windows st ++ [mkTouchedWindow h flags ids 0 firstDownTime ∅]).
Proof.
  split.
  - intros pre e post Hws He Hpre. unfold addOrUpdateWindow. rewrite Hws.
    rewrite updateFirst_first;
      [|now apply no_handle_scan|now apply sameHandle_true].
    eexists. split; [reflexivity|]. simpl. repeat split; auto.
    intros i Hi. rewrite Z.lor_spec, Hi. reflexivity.
  - intros Hno. unfold addOrUpdateWindow.
    apply no_handle_scan in Hno.
    apply (updateFirst_none _ (mergeIntoWindow flags ids firstDownTime)) in Hno.
    rewrite Hno. reflexivity.
Qed.

(** A call of addOrUpdateWindow whose flags include
    DISPATCH_AS_SLIPPERY_EXIT leaves the updated entry without DISPATCH_AS_IS,
    and with DISPATCH_AS_SLIPPERY_EXIT when that flag is a 32-bit value
    disjoint from DISPATCH_AS_IS.  On the insert path the appended entry
    carries the given flags unchanged. *)
Lemma addOrUpdateWindow_slippery_exit st h flags ids firstDownTime :
  DISPATCH_AS_IS <> 0 ->
  Flags.test flags DISPATCH_AS_SLIPPERY_EXIT = true ->
  (forall pre e post,
      windows st = pre ++ e :: post ->
      windowHandle e = h ->
      Forall (fun x => windowHandle x <> h) pre ->
      exists e',
        windows (addOrUpdateWindow h flags ids firstDownTime st) = pre ++ e' :: post
        /\ windowHandle e' = h
        /\ Flags.test (targetFlags e') DISPATCH_AS_IS = false
        /\ (0 <= DISPATCH_AS_SLIPPERY_EXIT < 2 ^ 32 ->
            Z.land DISPATCH_AS_SLIPPERY_EXIT DISPATCH_AS_IS = 0 ->
            Flags.test (targetFlags e') DISPATCH_AS_SLIPPERY_EXIT = true))
  /\ (Forall (fun x => windowHandle x <> h) (windows st) ->
      exists e',
        windows (addOrUpdateWindow h flags ids firstDownTime st) = windows st ++ [e']
        /\ windowHandle e' = h
        /\ targetFlags e' = flags).
Proof.
  intros Hasis Hexit. split.
  - intros pre e post Hws He Hpre. unfold addOrUpdateWindow. rewrite Hws.
    rewrite updateFirst_first;
      [|now apply no_handle_scan|now apply sameHandle_true].
    eexists. split; [reflexivity|]. unfold mergeIntoWindow. simpl. rewrite Hexit.
    repeat split; auto.
    + now apply test_clear_same.
    + intros Hrange Hdisj. rewrite test_clear_other by assumption.
      now apply test_union_r.
  - intros Hno. unfold addOrUpdateWindow.
    apply no_handle_scan in Hno.
    apply (updateFirst_none _ (mergeIntoWindow flags ids firstDownTime)) in Hno.
    rewrite Hno. eexists. split; [reflexivity|]. split; reflexivity.
Qed.

(** *** cancelPointersForWindowsExcept *)

(** What the call does: nothing for an empty pointer set; otherwise the
    entries of other tokens lose the given pointers, the entries of the
    excepted token are not changed by that step, and the entries without a
    touching pointer are then erased. *)
Lemma cancelPointersForWindowsExcept_effect st ids token :
  (ids = 0 -> cancelPointersForWindowsExcept ids token st = st)
  /\ (ids <> 0 ->
      windows (cancelPointersForWindowsExcept ids token st) =
      List.filter (fun w => BitSet.any (pointerIds w))
        (map (cancelExcept ids token) (windows st)))
  /\ (forall w, getToken (windowHandle w) = token -> cancelExcept ids token w = w)
  /\ (forall w i,
        getToken (windowHandle w) <> token -> 0 <= i <= MAX_POINTER_ID ->
        Z.testbit (pointerIds (cancelExcept ids token w)) i =
        Z.testbit (pointerIds w) i && negb (Z.testbit ids i)).
Proof.
  unfold cancelPointersForWindowsExcept, cancelExcept. repeat split.
  - now intros ->.
  - intros Hids. unfold BitSet.none. now rewrite (proj2 (Z.eqb_neq _ _) Hids).
  - intros w Hw. rewrite bool_decide_eq_false_2; [reflexivity|]. intros Hne. now apply Hne.
  - intros w i Hw Hi. rewrite bool_decide_eq_true_2 by assumption. simpl.
    now apply testbit_and_not.
Qed.

(** *** Uniqueness of window handles *)

Lemma map_keeps_handles (f : Window -> Window) ws :
  (forall w, windowHandle (f w) = windowHandle w) ->
  map windowHandle (map f ws) = map windowHandle ws.
Proof. intros Hf. rewrite map_map. apply map_ext. exact Hf. Qed.

Lemma erase_if_handles_sublist (p : Window -> bool) ws :
  map windowHandle (erase_if p ws) `sublist_of` map windowHandle ws.
Proof.
  induction ws as [|x ws IH]; simpl; [constructor|].
  destruct (p x); simpl; now constructor.
Qed.

Lemma eraseFirstByToken_handles_sublist token ws :
  map windowHandle (eraseFirstByToken token ws) `sublist_of` map windowHandle ws.
Proof.
  induction ws as [|x ws IH]; simpl; [constructor|].
  case_bool_decide; simpl; [now constructor|now constructor].
Qed.

Lemma filterNonAsIs_handles_sublist ws :
  map windowHandle (filterNonAsIs ws) `sublist_of` map windowHandle ws.
Proof.
  induction ws as [|x ws IH]; simpl; [constructor|].
  destruct (Flags.any _ _); simpl; now constructor.
Qed.

Lemma cancelExcept_handle ids token w :
  windowHandle (cancelExcept ids token w) = windowHandle w.
Proof. unfold cancelExcept. now case_bool_decide. Qed.

(** What an upsert does to the sequence of handles. *)
Lemma upsert_handles h (f : Window -> Window) (n : Window) ws :
  (forall w, windowHandle (f w) = windowHandle w) ->
  windowHandle n = h ->
  map windowHandle
    (match updateFirst (sameHandle h) f ws with
     | Some ws' => ws'
     | None => ws ++ [n]
     end) =
  if decide (h ∈ map windowHandle ws) then map windowHandle ws
  else map windowHandle ws ++ [h].
Proof.
  intros Hf Hn. destruct (updateFirst (sameHandle h) f ws) as [ws'|] eqn:E.
  - rewrite (updateFirst_handles _ _ _ _ Hf E).
    apply updateFirst_some in E as (pre & e & post & -> & _ & He & _).
    apply sameHandle_true in He. rewrite decide_True; [reflexivity|].
    rewrite map_app. simpl. rewrite He. set_solver.
  - apply updateFirst_none, no_handle_scan, no_handle_not_elem in E.
    rewrite decide_False by assumption. rewrite map_app. simpl. now rewrite Hn.
Qed.

Lemma addOrUpdateWindow_handles st h flags ids firstDownTime :
  handles (addOrUpdateWindow h flags ids firstDownTime st) =
  if decide (h ∈ handles st) then handles st else handles st ++ [h].
Proof.
  unfold handles, addOrUpdateWindow.
  rewrite <- (upsert_handles h (mergeIntoWindow flags ids firstDownTime)
                (set_firstDownTimeInTarget firstDownTime
                   (set_pointerIds ids (set_targetFlags flags (newTouchedWindow h)))))
    by reflexivity.
  now destruct (updateFirst _ _ _).
Qed.

Lemma addHoveringPointerToWindow_handles st h d i :
  handles (addHoveringPointerToWindow h d i st) =
  if decide (h ∈ handles st) then handles st else handles st ++ [h].
Proof.
  unfold handles, addHoveringPointerToWindow.
  rewrite <- (upsert_handles h (addHoveringPointer d i)
                (addHoveringPointer d i (newTouchedWindow h)))
    by reflexivity.
  now destruct (updateFirst _ _ _).
Qed.

Lemma NoDup_snoc_fresh (l : list WindowInfoHandle) h :
  NoDup l -> h ∉ l -> NoDup (l ++ [h]).
Proof.
  intros Hl Hh. apply NoDup_app. repeat split; [assumption| |apply NoDup_singleton].
  intros x Hx Hx'. apply list_elem_of_singleton in Hx'. now subst.
Qed.

Lemma run_unique_handles (op : Operation WindowInfoHandle) st :
  NoDup (handles st) -> NoDup (handles (run op st)).
Proof.
  intros Hst. destruct op; simpl.
  - constructor.
  - unfold handles, removeTouchedPointer. simpl. now rewrite map_keeps_handles.
  - unfold handles, removeTouchedPointerFromWindow.
    destruct (updateFirst _ _ _) eqn:E; [|assumption]. simpl.
    now rewrite (updateFirst_handles _ (removeTouchingPointer pointerId) _ _
                   (fun w => eq_refl) E).
  - unfold handles, clearHoveringPointers. simpl. now rewrite map_keeps_handles.
  - eapply sublist_NoDup; [exact Hst|]. apply erase_if_handles_sublist.
  - rewrite addOrUpdateWindow_handles. case_decide; [assumption|].
    now apply NoDup_snoc_fresh.
  - rewrite addHoveringPointerToWindow_handles. case_decide; [assumption|].
    now apply NoDup_snoc_fresh.
  - eapply sublist_NoDup; [exact Hst|]. apply eraseFirstByToken_handles_sublist.
  - eapply sublist_NoDup; [exact Hst|]. apply filterNonAsIs_handles_sublist.
  - unfold cancelPointersForWindowsExcept. destruct (BitSet.none ids); [assumption|].
    eapply sublist_NoDup; [exact Hst|]. unfold handles. simpl.
    etransitivity; [apply erase_if_handles_sublist|].
    rewrite map_keeps_handles; [reflexivity|apply cancelExcept_handle].
  - unfold cancelPointersForNonPilferingWindows. simpl.
    destruct (BitSet.none _); [assumption|].
    eapply sublist_NoDup; [exact Hst|]. unfold handles. simpl.
    etransitivity; [apply erase_if_handles_sublist|].
    rewrite map_keeps_handles; [reflexivity|now intros].
  - eapply sublist_NoDup; [exact Hst|]. unfold handles. simpl.
    etransitivity; [apply erase_if_handles_sublist|].
    rewrite map_keeps_handles; [reflexivity|now intros].
Qed.

Lemma runAll_unique_handles (ops : list (Operation WindowInfoHandle)) st :
  NoDup (handles st) -> NoDup (handles (runAll ops st)).
Proof.
  revert st. induction ops as [|op ops IH]; intros st Hst; simpl.
  - assumption.
  - apply IH. now apply run_unique_handles.
Qed.

Lemma addHoveringPointerToWindow_upsert st h d i :
  (forall pre e post,
      windows st = pre ++ e :: post ->
      windowHandle e = h ->
      Forall (fun x => windowHandle x <> h) pre ->
      windows (addHoveringPointerToWindow h d i st) = pre ++ addHoveringPointer d i e :: post)
  /\ (h ∉ handles st ->
      windows (addHoveringPointerToWindow h d i st) =
        windows st ++ [addHoveringPointer d i (newTouchedWindow h)]).
Proof.
  unfold addHoveringPointerToWindow. split.
  - intros pre e post -> He Hpre.
    rewrite updateFirst_first;
      [reflexivity|now apply no_handle_scan|now apply sameHandle_true].
  - intros Hno. apply no_handle_not_elem, no_handle_scan in Hno.
    apply (updateFirst_none _ (addHoveringPointer d i)) in Hno. now rewrite Hno.
Qed.

(** C6: in a state where no two entries have the same window handle, every
    mutating operation, and so every sequence of them, leaves a state with
    the same property; addOrUpdateWindow and addHoveringPointerToWindow keep
    the sequence of handles when the handle is present, the entry of that
    handle being the one they update, and append an entry for the handle
    only when it is not present. *)
Theorem unique_handles_preserved st :
  NoDup (handles st) ->
  (forall op, NoDup (handles (run op st)))
  /\ (forall ops, NoDup (handles (runAll ops st)))
  /\ (forall h flags ids firstDownTime,
        handles (addOrUpdateWindow h flags ids firstDownTime st) =
        if decide (h ∈ handles st) then handles st else handles st ++ [h])
  /\ (forall h hoveringDeviceId hoveringPointerId,
        handles (addHoveringPointerToWindow h hoveringDeviceId hoveringPointerId st) =
        if decide (h ∈ handles st) then handles st else handles st ++ [h])
  /\ (forall h flags ids firstDownTime pre e post,
        windows st = pre ++ e :: post -> windowHandle e = h ->
        exists e',
          windows (addOrUpdateWindow h flags ids firstDownTime st) = pre ++ e' :: post
          /\ windowHandle e' = h)
  /\ (forall h hoveringDeviceId hoveringPointerId pre e post,
        windows st = pre ++ e :: post -> windowHandle e = h ->
        windows (addHoveringPointerToWindow h hoveringDeviceId hoveringPointerId st) =
          pre ++ addHoveringPointer hoveringDeviceId hoveringPointerId e :: post).
Proof.
  intros Hst.
  assert (Hfirst : forall h pre e post,
             windows st = pre ++ e :: post -> windowHandle e = h ->
             Forall (fun x => windowHandle x <> h) pre).
  { intros h pre e post Hws He. apply no_handle_not_elem. intros Hin.
    unfold handles in Hst. rewrite Hws, map_app in Hst. simpl in Hst.
    apply NoDup_app in Hst as (_ & Hdisj & _). apply (Hdisj h Hin).
    rewrite He. apply list_elem_of_here. }
  split; [|split; [|split; [|split; [|split]]]].
  - intros op. now apply run_unique_handles.
  - intros ops. now apply runAll_unique_handles.
  - intros. apply addOrUpdateWindow_handles.
  - intros. apply addHoveringPointerToWindow_handles.
  - intros h flags ids firstDownTime pre e post Hws He.
    unfold addOrUpdateWindow. rewrite Hws.
    rewrite updateFirst_first;
      [|apply no_handle_scan; now apply (Hfirst h pre e post)|now apply sameHandle_true].
    eexists. split; [reflexivity|exact He].
  - intros h d i pre e post Hws He.
    apply (proj1 (addHoveringPointerToWindow_upsert st h d i)); auto.
    now apply (Hfirst h pre e post).
Qed.

(** *** isSlippery *)

Lemma isSlippery_loop_seen ws :
  isSlippery_loop true ws = true <-> List.filter isForeground ws = [].
Proof.
  induction ws as [|x ws IH]; simpl; [easy|].
  destruct (isForeground x); simpl; [easy|exact IH].
Qed.

Lemma isSlippery_loop_unseen ws :
  isSlippery_loop false ws = true <->
  exists w, List.filter isForeground ws = [w] /\ isSlipperyWindow w = true.
Proof.
  induction ws as [|x ws IH]; simpl.
  - split; [discriminate|]. intros (w & Hw & _). discriminate.
  - destruct (isForeground x); simpl; [|exact IH].
    destruct (isSlipperyWindow x) eqn:Hx; simpl.
    + rewrite isSlippery_loop_seen. split.
      * intros ->. now exists x.
      * intros (w & [= _ Hrest] & _). exact Hrest.
    + split; [discriminate|]. intros (w & [= <- _] & Hw). congruence.
Qed.

(** C5: isSlippery returns true exactly when one entry, and no other, has
    the FOREGROUND flag and the window of that entry has SLIPPERY in its
    input configuration; so it returns false with no foreground entry, with
    two or more of them whatever their configuration, and with a single one
    that is not slippery. *)
Theorem isSlippery_iff st :
  (isSlippery st = true <->
   exists w, List.filter isForeground (windows st) = [w] /\ isSlipperyWindow w = true)
  /\ (List.filter isForeground (windows st) = [] -> isSlippery st = false)
  /\ (forall w1 w2 rest,
        List.filter isForeground (windows st) = w1 :: w2 :: rest -> isSlippery st = false)
  /\ (forall w,
        List.filter isForeground (windows st) = [w] -> isSlipperyWindow w = false ->
        isSlippery st = false).
Proof.
  assert (Hiff := isSlippery_loop_unseen (windows st)). fold (isSlippery st) in Hiff.
  split; [exact Hiff|].
  repeat split.
  - intros Hnone. apply not_true_is_false. intros Ht.
    apply Hiff in Ht as (w & Hw & _). congruence.
  - intros w1 w2 rest Htwo. apply not_true_is_false. intros Ht.
    apply Hiff in Ht as (w & Hw & _). congruence.
  - intros w Hone Hw. apply not_true_is_false. intros Ht.
    apply Hiff in Ht as (w' & Hw' & Hs). congruence.
Qed.

(** *** getTouchedWindow *)

Lemma find_first (p : Window -> bool) pre e post :
  Forall (fun x => p x = false) pre -> p e = true ->
  List.find p (pre ++ e :: post) = Some e.
Proof.
  induction 1 as [|x pre Hx _ IH]; intros He; simpl.
  - now rewrite He.
  - rewrite Hx. now apply IH.
Qed.

Lemma find_absent (p : Window -> bool) ws :
  Forall (fun x => p x = false) ws -> List.find p ws = None.
Proof.
  induction 1 as [|x ws Hx _ IH]; simpl; [reflexivity|]. now rewrite Hx.
Qed.

(** C7: getTouchedWindow returns the first entry whose window handle is the
    argument; with no such entry the call does not return, the process is
    terminated with a message that names the window; and whenever some entry
    has the handle, the call returns an entry of the state with that handle. *)
Theorem getTouchedWindow_spec st h :
  (forall pre e post,
      windows st = pre ++ e :: post ->
      windowHandle e = h ->
      Forall (fun x => windowHandle x <> h) pre ->
      getTouchedWindow h st = Returns e)
  /\ (Forall (fun x => windowHandle x <> h) (windows st) ->
      getTouchedWindow h st = Fatal ("Could not find " +:+ getName h))
  /\ (h ∈ handles st ->
      exists e, getTouchedWindow h st = Returns e /\ e ∈ windows st /\ windowHandle e = h).
Proof.
  unfold getTouchedWindow. repeat split.
  - intros pre e post -> He Hpre.
    rewrite find_first; [reflexivity|now apply no_handle_scan|now apply sameHandle_true].
  - intros Hno. rewrite find_absent; [reflexivity|now apply no_handle_scan].
  - intros Hin. destruct (List.find (sameHandle h) (windows st)) as [e|] eqn:E.
    + apply find_some in E as [He1 He2]. exists e. repeat split.
      * now apply list_elem_of_In.
      * now apply sameHandle_true.
    + exfalso. revert Hin. apply no_handle_not_elem, no_handle_scan.
      apply Forall_forall. intros x Hx.
      apply (find_none _ _ E). now apply list_elem_of_In.
Qed.

(** *** removeTouchedPointer *)

Lemma clearbit_idempotent p i : Z.clearbit (Z.clearbit p i) i = Z.clearbit p i.
Proof.
  apply Z.bits_inj. intros m. rewrite !Z.clearbit_eqb.
  now destruct (Z.testbit p m), (i =? m).
Qed.

Lemma clearbit_absent p i : Z.testbit p i = false -> Z.clearbit p i = p.
Proof.
  intros Hp. apply Z.bits_inj. intros m. rewrite Z.clearbit_eqb.
  destruct (Z.eqb_spec i m); subst; [now rewrite Hp|now rewrite andb_true_r].
Qed.

Lemma removeTouchingPointer_idempotent i w :
  removeTouchingPointer i (removeTouchingPointer i w) = removeTouchingPointer i w.
Proof.
  unfold removeTouchingPointer, set_pointerIds. simpl. now rewrite clearbit_idempotent.
Qed.

(** C9: removing a touched pointer twice gives the state that removing it
    once gives, and an entry whose touching set does not hold the pointer is
    left as it was. *)
Theorem removeTouchedPointer_idempotent st pointerId :
  removeTouchedPointer pointerId (removeTouchedPointer pointerId st) =
    removeTouchedPointer pointerId st
  /\ (forall w, Z.testbit (pointerIds w) pointerId = false ->
                removeTouchingPointer pointerId w = w)
  /\ (Forall (fun w => Z.testbit (pointerIds w) pointerId = false) (windows st) ->
      removeTouchedPointer pointerId st = st).
Proof.
  assert (Habsent : forall w, Z.testbit (pointerIds w) pointerId = false ->
                              removeTouchingPointer pointerId w = w).
  { intros [hw f p q t hov] Hw. unfold removeTouchingPointer, set_pointerIds. simpl in *.
    now rewrite clearbit_absent. }
  repeat split.
  - unfold removeTouchedPointer, set_windows. simpl. f_equal.
    rewrite map_map. apply map_ext. intros w. apply removeTouchingPointer_idempotent.
  - exact Habsent.
  - intros Hall. destruct st as [d s ws]. unfold removeTouchedPointer, set_windows.
    simpl in *. f_equal. induction Hall as [|x ws Hx _ IH]; simpl; [reflexivity|].
    now rewrite Habsent, IH.
Qed.

(** *** filterNonAsIsTouchWindows *)

Lemma Forall2_map_self (R : Window -> Window -> Prop) (f : Window -> Window) ws :
  (forall w, R w (f w)) -> Forall2 R ws (map f ws).
Proof. intros HR. induction ws; simpl; constructor; auto. Qed.

Lemma filterNonAsIs_map_filter ws :
  filterNonAsIs ws =
  map dispatchAsIs
    (List.filter
       (fun w => Flags.any (targetFlags w)
                   (Flags.union DISPATCH_AS_IS DISPATCH_AS_SLIPPERY_ENTER)) ws).
Proof.
  induction ws as [|x ws IH]; simpl; [reflexivity|].
  destruct (Flags.any _ _); simpl; now rewrite IH.
Qed.

Lemma any_of_two_flags x f g :
  Flags.is_flag f -> Flags.is_flag g ->
  Flags.any x (Flags.union f g) = Flags.test x f || Flags.test x g.
Proof.
  intros (a & Ha & ->) (b & Hb & ->).
  rewrite any_two_bits, !test_flag_bit by lia. reflexivity.
Qed.

Lemma dispatchAsIs_mode_bits w :
  Flags.test DISPATCH_MASK DISPATCH_AS_IS = true ->
  Z.land (targetFlags (dispatchAsIs w)) DISPATCH_MASK = DISPATCH_AS_IS.
Proof.
  intros Hin. simpl. unfold Flags.union. apply Z.bits_inj'. intros i Hi.
  rewrite Z.land_spec, Z.lor_spec, testbit_clear by lia.
  pose proof (test_bits _ _ Hin i) as Hb.
  destruct (Z.testbit DISPATCH_AS_IS i).
  - rewrite Hb by reflexivity. btauto.
  - destruct (Z.testbit DISPATCH_MASK i); btauto.
Qed.

Lemma dispatchAsIs_other_bits w i :
  Flags.test DISPATCH_MASK DISPATCH_AS_IS = true ->
  0 <= i < 32 -> Z.testbit DISPATCH_MASK i = false ->
  Z.testbit (targetFlags (dispatchAsIs w)) i = Z.testbit (targetFlags w) i.
Proof.
  intros Hin Hi Hout. simpl. unfold Flags.union.
  rewrite Z.lor_spec, testbit_clear, Hout by lia.
  assert (Z.testbit DISPATCH_AS_IS i = false) as ->.
  { destruct (Z.testbit DISPATCH_AS_IS i) eqn:E; [|reflexivity].
    rewrite <- Hout. symmetry. now apply (test_bits _ _ Hin). }
  replace (i <? 32) with true by (symmetry; apply Z.ltb_lt; lia).
  btauto.
Qed.

(** C8: filterNonAsIsTouchWindows keeps, in their order, exactly the entries
    whose flags include DISPATCH_AS_IS or DISPATCH_AS_SLIPPERY_ENTER; in each
    of them the bits of DISPATCH_MASK become DISPATCH_AS_IS alone, every
    other flag bit stays as it was, and no other field changes.  The two
    flags are single bits and DISPATCH_AS_IS lies in the mask. *)
Theorem filterNonAsIsTouchWindows_spec st :
  Flags.is_flag DISPATCH_AS_IS ->
  Flags.is_flag DISPATCH_AS_SLIPPERY_ENTER ->
  Flags.test DISPATCH_MASK DISPATCH_AS_IS = true ->
  Forall2
    (fun old new =>
       windowHandle new = windowHandle old
       /\ pointerIds new = pointerIds old
       /\ pilferedPointerIds new = pilferedPointerIds old
       /\ firstDownTimeInTarget new = firstDownTimeInTarget old
       /\ hoveringPointers new = hoveringPointers old
       /\ Z.land (targetFlags new) DISPATCH_MASK = DISPATCH_AS_IS
       /\ (forall i, 0 <= i < 32 -> Z.testbit DISPATCH_MASK i = false ->
                     Z.testbit (targetFlags new) i = Z.testbit (targetFlags old) i))
    (List.filter
       (fun w => Flags.test (targetFlags w) DISPATCH_AS_IS
                 || Flags.test (targetFlags w) DISPATCH_AS_SLIPPERY_ENTER)
       (windows st))
    (windows (filterNonAsIsTouchWindows st)).
Proof.
  intros Hasis Henter Hmask. simpl. rewrite filterNonAsIs_map_filter.
  rewrite (filter_ext _ _ (fun w => any_of_two_flags (targetFlags w) _ _ Hasis Henter)).
  apply Forall2_map_self. intros w. repeat split.
  - now apply dispatchAsIs_mode_bits.
  - intros i Hi Hout. now apply dispatchAsIs_other_bits.
Qed.

(** *** cancelPointersForNonPilferingWindows *)

Lemma erase_if_map (p : Window -> bool) (f : Window -> Window) ws :
  erase_if p (map f ws) = map f (List.filter (fun w => negb (p (f w))) ws).
Proof.
  unfold erase_if. induction ws as [|x ws IH]; simpl; [reflexivity|].
  destruct (p (f x)); simpl; now rewrite IH.
Qed.

Lemma filter_sublist (p : Window -> bool) ws : List.filter p ws `sublist_of` ws.
Proof.
  induction ws as [|x ws IH]; simpl; [constructor|].
  destruct (p x); now constructor.
Qed.

(** C10: cancelPointersForNonPilferingWindows leaves the device id and the
    source alone; the entries of the result are, in order, entries of the
    state it was called on (a subsequence of them), each with the same window
    handle, flags, pilfered pointers, hovering pointers and first down time
    as before. *)
Theorem cancelPointersForNonPilferingWindows_frame st :
  deviceId (cancelPointersForNonPilferingWindows st) = deviceId st
  /\ source (cancelPointersForNonPilferingWindows st) = source st
  /\ exists survivors,
      survivors `sublist_of` windows st
      /\ Forall2
           (fun old new =>
              windowHandle new = windowHandle old
              /\ targetFlags new = targetFlags old
              /\ pilferedPointerIds new = pilferedPointerIds old
              /\ hoveringPointers new = hoveringPointers old
              /\ firstDownTimeInTarget new = firstDownTimeInTarget old)
           survivors (windows (cancelPointersForNonPilferingWindows st)).
Proof.
  unfold cancelPointersForNonPilferingWindows. simpl.
  destruct (BitSet.none (allPilferedPointerIds (windows st))).
  - repeat split. exists (windows st). split; [reflexivity|].
    rewrite <- (map_id (windows st)) at 2. now apply Forall2_map_self.
  - repeat split. simpl. rewrite erase_if_map. eexists. split; [apply filter_sublist|].
    now apply Forall2_map_self.
Qed.

Lemma Forall2_map_elem (R : Window -> Window -> Prop) (f : Window -> Window) ws :
  (forall w, w ∈ ws -> R w (f w)) -> Forall2 R ws (map f ws).
Proof.
  induction ws as [|x ws IH]; intros HR; simpl; constructor.
  - apply HR, list_elem_of_here.
  - apply IH. intros w Hw. now apply HR, list_elem_of_further.
Qed.

Lemma fold_pilfered_bits ws acc i :
  Z.testbit (fold_left (fun a w => Z.lor a (pilferedPointerIds w)) ws acc) i = true <->
  Z.testbit acc i = true \/ exists w, w ∈ ws /\ Z.testbit (pilferedPointerIds w) i = true.
Proof.
  revert acc. induction ws as [|x ws IH]; intros acc; simpl.
  - split; [now left|]. intros [H|(w & Hw & _)]; [assumption|].
    now apply not_elem_of_nil in Hw.
  - rewrite IH, Z.lor_spec, orb_true_iff. split.
    + intros [[H|H]|(w & Hw & H)]; [now left| |].
      * right. exists x. split; [apply list_elem_of_here|assumption].
      * right. exists w. split; [now apply list_elem_of_further|assumption].
    + intros [H|(w & Hw & H)]; [now left; left|].
      apply elem_of_cons in Hw as [->|Hw]; [now left; right|].
      right. now exists w.
Qed.

Lemma allPilfered_bits ws i :
  Z.testbit (allPilferedPointerIds ws) i = true <->
  exists w, w ∈ ws /\ Z.testbit (pilferedPointerIds w) i = true.
Proof.
  unfold allPilferedPointerIds. rewrite fold_pilfered_bits, Z.bits_0.
  split; [intros [?|?]; [discriminate|assumption]|now right].
Qed.

Lemma cancelPilferedByOthers_bits allPilfered w i :
  0 <= i <= MAX_POINTER_ID ->
  Z.testbit (pointerIds (cancelPilferedByOthers allPilfered w)) i =
  Z.testbit (pointerIds w) i
  && negb (xorb (Z.testbit (pilferedPointerIds w) i) (Z.testbit allPilfered i)).
Proof.
  intros Hi. simpl. now rewrite testbit_and_not, Z.lxor_spec.
Qed.

(** C2 (as amended): [allPilfered] is the union of the entries' pilfered
    sets.  When it is empty the call changes nothing.  Otherwise every entry
    loses from its touching set exactly the valid pointer ids of
    [pilferedPointerIds xor allPilfered], and the entries whose touching set
    is then empty are erased: a pointer that an entry pilfers is never taken
    from that entry, and a pointer pilfered by any entry is taken from every
    entry that does not pilfer it.  With A pilfering {1} and B pilfering {2},
    both touching {1,2}, A is left with {1} and B with {2}; with A and B both
    pilfering {1}, neither of the two loses pointer 1. *)
Theorem cancelPointersForNonPilferingWindows_spec st :
  let allPilfered := allPilferedPointerIds (windows st) in
  let st' := cancelPointersForNonPilferingWindows st in
  (forall i, Z.testbit allPilfered i = true <->
             exists w, w ∈ windows st /\ Z.testbit (pilferedPointerIds w) i = true)
  /\ (allPilfered = 0 -> st' = st)
  /\ (allPilfered <> 0 ->
      exists news,
        Forall2
          (fun old new =>
             new = set_pointerIds (pointerIds new) old
             /\ (forall i, 0 <= i <= MAX_POINTER_ID ->
                   Z.testbit (pointerIds new) i =
                   Z.testbit (pointerIds old) i
                   && negb (xorb (Z.testbit (pilferedPointerIds old) i)
                                 (Z.testbit allPilfered i)))
             /\ (forall i, 0 <= i <= MAX_POINTER_ID ->
                   Z.testbit (pilferedPointerIds old) i = true ->
                   Z.testbit (pointerIds new) i = Z.testbit (pointerIds old) i)
             /\ (forall i, 0 <= i <= MAX_POINTER_ID ->
                   Z.testbit allPilfered i = true ->
                   Z.testbit (pilferedPointerIds old) i = false ->
                   Z.testbit (pointerIds new) i = false))
          (windows st) news
        /\ windows st' = List.filter (fun w => BitSet.any (pointerIds w)) news)
  /\ (forall hA hB fA fB tA tB hovA hovB,
        windows st = [mkTouchedWindow hA fA 6 2 tA hovA; mkTouchedWindow hB fB 6 4 tB hovB] ->
        windows st' = [mkTouchedWindow hA fA 2 2 tA hovA; mkTouchedWindow hB fB 4 4 tB hovB])
  /\ (forall hA hB fA fB tA tB hovA hovB,
        windows st = [mkTouchedWindow hA fA 6 2 tA hovA; mkTouchedWindow hB fB 2 2 tB hovB] ->
        windows st' = windows st).
Proof.
  intros allPilfered st'. subst st'. unfold cancelPointersForNonPilferingWindows.
  fold allPilfered. simpl. repeat split.
  - now apply allPilfered_bits.
  - now apply allPilfered_bits.
  - intros ->. reflexivity.
  - intros Hsome. unfold BitSet.none. rewrite (proj2 (Z.eqb_neq _ _) Hsome). simpl.
    exists (map (cancelPilferedByOthers allPilfered) (windows st)). split; [|reflexivity].
    apply Forall2_map_elem. intros w Hw.
    repeat split.
    + intros i Hi. now apply cancelPilferedByOthers_bits.
    + intros i Hi Hown. rewrite cancelPilferedByOthers_bits, Hown by assumption.
      assert (Z.testbit allPilfered i = true) as ->.
      { apply allPilfered_bits. now exists w. }
      simpl. apply andb_true_r.
    + intros i Hi Hall Hown. rewrite cancelPilferedByOthers_bits, Hall, Hown by assumption.
      simpl. apply andb_false_r.
  - intros hA hB fA fB tA tB hovA hovB Hws. subst allPilfered. rewrite Hws. reflexivity.
  - intros hA hB fA fB tA tB hovA hovB Hws. subst allPilfered. rewrite Hws. reflexivity.
Qed.

End Properties.

(** ** The operations on concrete states *)

Import Sample.

(** C1, concrete: B's entry is updated in place; pointer 0 joins its touching
    set and its first down time stays 100. *)
Lemma addOrUpdateWindow_upsert_sample :
  exists e',
    windows (addOrUpdateWindow 2%nat FOREGROUND p0 (Some 200) (state [windowA; windowB]))
    = [windowA; e']
    /\ targetFlags e' = Z.lor DISPATCH_AS_IS FOREGROUND
    /\ pointerIds e' = 7
    /\ firstDownTimeInTarget e' = Some 100.
Proof.
  destruct (proj1 (addOrUpdateWindow_upsert (state [windowA; windowB]) 2%nat
                     FOREGROUND p0 (Some 200))
              [windowA] windowB [] eq_refl eq_refl)
    as (e' & Hws & _ & Hf & Hp & _ & Ht & _).
  { repeat constructor. simpl. lia. }
  exists e'. rewrite Hws, Hf, Hp, Ht. repeat split.
Defined.

(** C1, as first stated, fails: an entry holding DISPATCH_AS_IS that is
    updated with DISPATCH_AS_SLIPPERY_EXIT ends with DISPATCH_AS_SLIPPERY_EXIT
    alone, which is not the bitwise or of the old and the new flags. *)
Lemma addOrUpdateWindow_flags_not_plain_or :
  map targetFlags
    (windows (addOrUpdateWindow 2%nat DISPATCH_AS_SLIPPERY_EXIT p0 None
                (state [windowA; windowB])))
  = [targetFlags windowA; DISPATCH_AS_SLIPPERY_EXIT]
  /\ Z.lor (targetFlags windowB) DISPATCH_AS_SLIPPERY_EXIT <> DISPATCH_AS_SLIPPERY_EXIT.
Proof. split; [reflexivity|]. intros E. vm_compute in E. discriminate. Qed.

(** C4, as first stated, fails: from the empty state, a call with
    DISPATCH_AS_SLIPPERY_EXIT alone creates an entry, and every entry then
    obeys the exclusion; a second call for the same window with
    DISPATCH_AS_IS alone leaves the entry with both flags. *)
Lemma addOrUpdateWindow_keeps_both_flags :
  exclusive (addOrUpdateWindow 0%nat DISPATCH_AS_SLIPPERY_EXIT p0 (Some 100) empty)
  /\ exitExcludesAsIs DISPATCH_AS_SLIPPERY_EXIT
  /\ exitExcludesAsIs DISPATCH_AS_IS
  /\ (exists e,
        windows (addOrUpdateWindow 0%nat DISPATCH_AS_IS p0 (Some 200)
                   (addOrUpdateWindow 0%nat DISPATCH_AS_SLIPPERY_EXIT p0 (Some 100) empty))
        = [e]
        /\ Flags.test (targetFlags e) DISPATCH_AS_SLIPPERY_EXIT = true
        /\ Flags.test (targetFlags e) DISPATCH_AS_IS = true)
  /\ ~ exclusive
        (addOrUpdateWindow 0%nat DISPATCH_AS_IS p0 (Some 200)
           (addOrUpdateWindow 0%nat DISPATCH_AS_SLIPPERY_EXIT p0 (Some 100) empty)).
Proof.
  split; [|split; [|split; [|split]]].
  - repeat constructor.
  - intros _. reflexivity.
  - intros H. vm_compute in H. discriminate.
  - eexists. split; [reflexivity|split; reflexivity].
  - intros H. apply Forall_cons in H as [H _]. specialize (H eq_refl).
    vm_compute in H. discriminate.
Qed.

(** C2, concrete: A pilfers pointer 1 and B pointer 2, both touch 1 and 2;
    afterwards A touches pointer 1 only and B pointer 2 only. *)
Lemma cancelPointersForNonPilferingWindows_sample :
  windows (cancelPointersForNonPilferingWindows (state [windowA; windowB]))
  = [entry 0 (Z.lor FOREGROUND DISPATCH_AS_IS) p1 p1 (Some 100);
     entry 2 DISPATCH_AS_IS p2 p2 (Some 100)].
Proof.
  destruct (cancelPointersForNonPilferingWindows_spec (state [windowA; windowB]))
    as (_ & _ & _ & Hsym & _).
  exact (Hsym _ _ _ _ _ _ _ _ eq_refl).
Defined.

(** C2, as first stated, fails: pointer 1 is pilfered by two entries and is
    all the same removed from the touching set of the third entry, which
    touched it and pilfers nothing. *)
Lemma pilfered_by_two_removed_from_third :
  Z.testbit (pilferedPointerIds pilferer1) 1 = true
  /\ Z.testbit (pilferedPointerIds pilferer2) 1 = true
  /\ Z.testbit (pointerIds bystander) 1 = true
  /\ windows (cancelPointersForNonPilferingWindows (state [pilferer1; pilferer2; bystander]))
     = [pilferer1; pilferer2; entry 4 DISPATCH_AS_IS p2 0 (Some 100)]
  /\ Z.testbit (pointerIds (entry 4 DISPATCH_AS_IS p2 0 (Some 100))) 1 = false.
Proof. repeat split. Qed.

(** C3, on a state reached from the empty one: window 2 (token 1) hovers
    with pointer 0 of device 5 and touches pointer 1.  Cancelling pointer 1
    for every window but the one of token 0 erases the entry although its
    hovering set is not empty; and a hovering entry of the excepted token
    itself, which has no touching pointer, is erased as well. *)
Lemma cancelPointersForWindowsExcept_erases_hovering_entries :
  let hovering := addHoveringPointerToWindow 2%nat 5 0 empty in
  let touching := addOrUpdateWindow 2%nat DISPATCH_AS_IS p1 (Some 100) hovering in
  (exists e, windows touching = [e] /\ hasHoveringPointers e = true
             /\ getToken (windowHandle e) <> 0)
  /\ windows (cancelPointersForWindowsExcept p1 0 touching) = []
  /\ windows (clearWindowsWithoutPointers
               (set_windows (map (cancelExcept p1 0) (windows touching)) touching))
     = [mkTouchedWindow 2%nat DISPATCH_AS_IS 0 0 (Some 100) {[ (5, 0) ]}]
  /\ (exists e, windows hovering = [e] /\ hasHoveringPointers e = true
                /\ getToken (windowHandle e) = 1)
  /\ windows (cancelPointersForWindowsExcept p1 1 hovering) = [].
Proof.
  assert (Hhov : forall f p t,
             hasHoveringPointers
               (mkTouchedWindow 2%nat f p 0 t ({[ (5, 0) ]} ∪ ∅)) = true).
  { intros. unfold hasHoveringPointers. simpl.
    rewrite bool_decide_eq_false_2; [reflexivity|set_solver]. }
  simpl. split; [|split; [|split; [|split]]].
  - eexists. split; [reflexivity|]. split; [apply Hhov|]. simpl. lia.
  - reflexivity.
  - unfold clearWindowsWithoutPointers, erase_if, withoutPointers. simpl.
    unfold cancelExcept, mergeIntoWindow, set_pointerIds. simpl.
    rewrite Hhov. simpl. do 2 f_equal; set_solver.
  - eexists. split; [reflexivity|]. split; [apply Hhov|]. reflexivity.
  - reflexivity.
Qed.

(** C5, concrete: with two foreground windows, both of them slippery, the
    state is not slippery; with windowA as the only foreground window, a
    slippery one, it is. *)
Lemma isSlippery_sample :
  isSlippery (state [F1; F2]) = false /\ isSlippery (state [windowA; windowB]) = true.
Proof.
  destruct (isSlippery_iff (state [F1; F2])) as (_ & _ & Htwo & _).
  destruct (isSlippery_iff (state [windowA; windowB])) as (Hiff & _).
  split.
  - exact (Htwo F1 F2 [] eq_refl).
  - apply Hiff. exists windowA. split; reflexivity.
Defined.

(** C6, concrete: the handles 0 and 2 are distinct, and stay so. *)
Lemma unique_handles_preserved_sample :
  NoDup (handles (state [windowA; windowB]))
  /\ NoDup (handles (addOrUpdateWindow 2%nat FOREGROUND p0 None (state [windowA; windowB])))
  /\ NoDup (handles (runAll [OpAddHoveringPointerToWindow 4%nat 5 0;
                             OpCancelPointersForNonPilferingWindows;
                             OpAddOrUpdateWindow 4%nat DISPATCH_AS_IS p0 (Some 300)]
                       (state [windowA; windowB]))).
Proof.
  assert (Hst : NoDup (handles (state [windowA; windowB]))).
  { apply (bool_decide_unpack _). vm_compute. exact I. }
  destruct (unique_handles_preserved (state [windowA; windowB]) Hst) as (Hop & Hops & _).
  split; [exact Hst|]. split.
  - exact (Hop (OpAddOrUpdateWindow 2%nat FOREGROUND p0 None)).
  - apply Hops.
Defined.

(** C7, concrete: the entry of handle 2 is found; handle 5 has no entry and
    the call is fatal. *)
Lemma getTouchedWindow_sample :
  getTouchedWindow 2%nat (state [windowA; windowB]) = Returns windowB
  /\ getTouchedWindow 5%nat (state [windowA; windowB])
     = Fatal ("Could not find " +:+ getName 5%nat).
Proof.
  destruct (getTouchedWindow_spec (state [windowA; windowB]) 2%nat) as (Hfound & _).
  destruct (getTouchedWindow_spec (state [windowA; windowB]) 5%nat) as (_ & Hfatal & _).
  split.
  - apply (Hfound [windowA] windowB [] eq_refl eq_refl).
    repeat constructor. simpl. lia.
  - apply Hfatal. repeat constructor; simpl; lia.
Defined.

(** C8, concrete: of the two overlapping windows only W1 is kept; its mode
    bits are DISPATCH_AS_IS and it is still a foreground window. *)
Lemma filterNonAsIsTouchWindows_sample :
  exists e,
    windows (filterNonAsIsTouchWindows (state [W1; W2])) = [e]
    /\ windowHandle e = 0%nat
    /\ Z.land (targetFlags e) DISPATCH_MASK = DISPATCH_AS_IS
    /\ Z.testbit (targetFlags e) 0 = true.
Proof.
  assert (Hasis : Flags.is_flag DISPATCH_AS_IS) by (exists 8; split; [lia|reflexivity]).
  assert (Henter : Flags.is_flag DISPATCH_AS_SLIPPERY_ENTER)
    by (exists 13; split; [lia|reflexivity]).
  assert (Hmask : Flags.test DISPATCH_MASK DISPATCH_AS_IS = true) by reflexivity.
  pose proof (filterNonAsIsTouchWindows_spec (state [W1; W2]) Hasis Henter Hmask) as H.
  match type of H with
  | Forall2 _ ?l _ => assert (Hl : l = [W1]) by reflexivity; rewrite Hl in H
  end.
  apply Forall2_cons_inv_l in H
    as (new & rest & (Hh & _ & _ & _ & _ & Hmode & Hother) & Hrest & Hws).
  apply Forall2_nil_inv_l in Hrest. subst rest.
  exists new. split; [exact Hws|].
  split; [exact Hh|]. split; [exact Hmode|].
  rewrite Hother; [reflexivity|lia|reflexivity].
Defined.

(** The end-to-end scenario of the spec, evaluated: only W1 is left, with
    the flags FOREGROUND and DISPATCH_AS_IS. *)
Example filterNonAsIsTouchWindows_scenario :
  windows (filterNonAsIsTouchWindows (state [W1; W2])) = [W1].
Proof. reflexivity. Qed.

(** C9, concrete: windowA does not touch pointer 3 and is left as it is. *)
Lemma removeTouchedPointer_sample :
  removeTouchingPointer 3 windowA = windowA
  /\ removeTouchedPointer 3 (state [windowA; windowB]) = state [windowA; windowB].
Proof.
  destruct (removeTouchedPointer_idempotent (state [windowA; windowB]) 3)
    as (_ & Hone & Hall).
  split.
  - apply Hone. reflexivity.
  - apply Hall. repeat constructor.
Defined.

(** ** Further properties of the operations *)

Section MoreProperties.

Context {WindowInfoHandle : Type}.
Context {handleOps : WindowInfoHandleOps WindowInfoHandle}.
Context {targetFlagValues : InputTargetFlags}.

Local Abbreviation Window := (TouchedWindow WindowInfoHandle).
Local Abbreviation State := (TouchState WindowInfoHandle).

Implicit Types (w e : Window) (ws pre post : list Window) (st : State).
Implicit Types (h : WindowInfoHandle).

Lemma set_windows_same st : set_windows (windows st) st = st.
Proof. now destruct st. Qed.

Lemma filter_all (p : Window -> bool) ws :
  Forall (fun w => p w = true) ws -> List.filter p ws = ws.
Proof.
  induction 1 as [|x ws Hx _ IH]; simpl; [reflexivity|]. now rewrite Hx, IH.
Qed.

Lemma filter_holds (p : Window -> bool) ws :
  Forall (fun w => p w = true) (List.filter p ws).
Proof.
  induction ws as [|x ws IH]; simpl; [constructor|].
  destruct (p x) eqn:Hx; [now constructor|exact IH].
Qed.

Lemma filter_elem (p : Window -> bool) ws w :
  w ∈ List.filter p ws <-> w ∈ ws /\ p w = true.
Proof. rewrite !list_elem_of_In. apply filter_In. Qed.

Lemma map_elem (f : Window -> Window) ws w' :
  w' ∈ map f ws <-> exists w, w ∈ ws /\ w' = f w.
Proof.
  rewrite list_elem_of_In, in_map_iff. split.
  - intros (w & <- & Hw). exists w. now rewrite list_elem_of_In.
  - intros (w & Hw & ->). exists w. now rewrite <- list_elem_of_In.
Qed.

(** *** removeWindowByToken *)

Lemma eraseFirstByToken_absent token ws :
  Forall (fun x => getToken (windowHandle x) <> token) ws ->
  eraseFirstByToken token ws = ws.
Proof.
  induction 1 as [|x ws Hx _ IH]; simpl; [reflexivity|].
  now rewrite bool_decide_eq_false_2, IH.
Qed.

Lemma eraseFirstByToken_first token pre e post :
  Forall (fun x => getToken (windowHandle x) <> token) pre ->
  getToken (windowHandle e) = token ->
  eraseFirstByToken token (pre ++ e :: post) = pre ++ post.
Proof.
  induction 1 as [|x pre Hx _ IH]; intros He; simpl.
  - now rewrite bool_decide_eq_true_2.
  - now rewrite bool_decide_eq_false_2, IH.
Qed.

Lemma eraseFirstByToken_others token ws :
  List.filter (fun w => negb (hasToken token w)) (eraseFirstByToken token ws) =
  List.filter (fun w => negb (hasToken token w)) ws.
Proof.
  induction ws as [|x ws IH]; simpl; [reflexivity|].
  change (bool_decide (getToken (windowHandle x) = token)) with (hasToken token x).
  destruct (hasToken token x) eqn:Hx; simpl; [reflexivity|].
  now rewrite Hx, IH.
Qed.

Lemma eraseFirstByToken_count token ws :
  length (List.filter (hasToken token) (eraseFirstByToken token ws)) =
  Nat.pred (length (List.filter (hasToken token) ws)).
Proof.
  induction ws as [|x ws IH]; simpl; [reflexivity|].
  change (bool_decide (getToken (windowHandle x) = token)) with (hasToken token x).
  destruct (hasToken token x) eqn:Hx; simpl; [reflexivity|].
  now rewrite Hx.
Qed.

(** X1: removeWindowByToken changes nothing when no entry has the token;
    otherwise it erases the first entry with that token and only that one:
    later entries of the same token stay, so the number of entries with the
    token drops by one, and the entries of other tokens are all kept in
    their order. *)
Theorem removeWindowByToken_first_only st token :
  (Forall (fun x => getToken (windowHandle x) <> token) (windows st) ->
   removeWindowByToken token st = st)
  /\ (forall pre e post,
        windows st = pre ++ e :: post ->
        getToken (windowHandle e) = token ->
        Forall (fun x => getToken (windowHandle x) <> token) pre ->
        windows (removeWindowByToken token st) = pre ++ post)
  /\ length (List.filter (hasToken token) (windows (removeWindowByToken token st))) =
     Nat.pred (length (List.filter (hasToken token) (windows st)))
  /\ List.filter (fun w => negb (hasToken token w)) (windows (removeWindowByToken token st)) =
     List.filter (fun w => negb (hasToken token w)) (windows st).
Proof.
  unfold removeWindowByToken. simpl. repeat split.
  - intros Hno. rewrite eraseFirstByToken_absent by assumption. apply set_windows_same.
  - intros pre e post -> He Hpre. now apply eraseFirstByToken_first.
  - apply eraseFirstByToken_count.
  - apply eraseFirstByToken_others.
Qed.

(** *** removeTouchedPointerFromWindow *)

(** X2: removeTouchedPointerFromWindow changes nothing when no entry has the
    window handle; otherwise the pointer is removed from the first entry
    with that handle and from no other entry, and in both cases the handles
    of the entries and their order stay as they were. *)
Theorem removeTouchedPointerFromWindow_first_only st pointerId h :
  (Forall (fun x => windowHandle x <> h) (windows st) ->
   removeTouchedPointerFromWindow pointerId h st = st)
  /\ (forall pre e post,
        windows st = pre ++ e :: post ->
        windowHandle e = h ->
        Forall (fun x => windowHandle x <> h) pre ->
        windows (removeTouchedPointerFromWindow pointerId h st) =
          pre ++ removeTouchingPointer pointerId e :: post)
  /\ handles (removeTouchedPointerFromWindow pointerId h st) = handles st.
Proof.
  unfold removeTouchedPointerFromWindow. repeat split.
  - intros Hno. apply no_handle_scan in Hno.
    apply (updateFirst_none _ (removeTouchingPointer pointerId)) in Hno. now rewrite Hno.
  - intros pre e post -> He Hpre.
    rewrite updateFirst_first;
      [reflexivity|now apply no_handle_scan|now apply sameHandle_true].
  - destruct (updateFirst _ _ _) eqn:E; [|reflexivity]. unfold handles. simpl.
    exact (updateFirst_handles (sameHandle h) (removeTouchingPointer pointerId) _ _
             (fun w => eq_refl) E).
Qed.

(** *** clearWindowsWithoutPointers *)

Lemma withoutPointers_false w :
  withoutPointers w = false <-> pointerIds w <> 0 \/ hasHoveringPointers w = true.
Proof.
  unfold withoutPointers, BitSet.none.
  rewrite andb_false_iff, Z.eqb_neq, negb_false_iff. reflexivity.
Qed.

Lemma erase_if_elem (p : Window -> bool) ws w :
  w ∈ erase_if p ws <-> w ∈ ws /\ p w = false.
Proof. unfold erase_if. rewrite filter_elem, negb_true_iff. reflexivity. Qed.

Lemma erase_if_idempotent (p : Window -> bool) ws :
  erase_if p (erase_if p ws) = erase_if p ws.
Proof. unfold erase_if. apply filter_all, filter_holds. Qed.

Lemma erase_if_sublist (p : Window -> bool) ws : erase_if p ws `sublist_of` ws.
Proof. apply filter_sublist. Qed.

(** X3: after clearWindowsWithoutPointers every entry has a touching
    pointer or a hovering pointer; the entries kept are exactly those of the
    state that had one, unchanged and in their order; and a second call
    changes nothing. *)
Theorem clearWindowsWithoutPointers_prunes st :
  Forall (fun w => pointerIds w <> 0 \/ hasHoveringPointers w = true)
    (windows (clearWindowsWithoutPointers st))
  /\ (forall w, w ∈ windows (clearWindowsWithoutPointers st) <->
                w ∈ windows st /\ (pointerIds w <> 0 \/ hasHoveringPointers w = true))
  /\ windows (clearWindowsWithoutPointers st) `sublist_of` windows st
  /\ clearWindowsWithoutPointers (clearWindowsWithoutPointers st) =
     clearWindowsWithoutPointers st.
Proof.
  unfold clearWindowsWithoutPointers. simpl.
  assert (Hkept : forall w, w ∈ erase_if withoutPointers (windows st) <->
                            w ∈ windows st
                            /\ (pointerIds w <> 0 \/ hasHoveringPointers w = true)).
  { intros w. rewrite erase_if_elem, withoutPointers_false. reflexivity. }
  split; [|split; [|split]].
  - apply Forall_forall. intros w Hw. now apply Hkept in Hw.
  - exact Hkept.
  - apply erase_if_sublist.
  - unfold set_windows. simpl. now rewrite erase_if_idempotent.
Qed.

(** *** Lookup after an upsert *)

(** What an upsert leaves in [windows]: the first entry of the handle,
    updated, or a new last entry. *)
Lemma upsert_find h (f : Window -> Window) (n : Window) ws :
  (forall w, windowHandle (f w) = windowHandle w) ->
  windowHandle n = h ->
  exists e,
    List.find (sameHandle h)
      (match updateFirst (sameHandle h) f ws with
       | Some ws' => ws'
       | None => ws ++ [n]
       end) = Some e
    /\ ((exists e0, e0 ∈ ws /\ windowHandle e0 = h /\ e = f e0)
        \/ (Forall (fun x => windowHandle x <> h) ws /\ e = n)).
Proof.
  intros Hf Hn. destruct (updateFirst (sameHandle h) f ws) as [ws'|] eqn:E.
  - apply updateFirst_some in E as (pre & e0 & post & -> & Hpre & He0 & ->).
    exists (f e0). split.
    + apply find_first; [assumption|]. apply sameHandle_true.
      rewrite Hf. now apply sameHandle_true.
    + left. exists e0. repeat split; [set_solver|now apply sameHandle_true].
  - apply updateFirst_none in E. exists n. split.
    + apply find_first; [assumption|now apply sameHandle_true].
    + right. split; [now apply no_handle_scan|reflexivity].
Qed.

(** X4: after addOrUpdateWindow for a window handle, getTouchedWindow for
    that handle never hits the fatal assertion: it returns an entry of that
    handle whose touching set holds every pointer of the call, and which has
    a first down time when the call gave one. *)
Theorem getTouchedWindow_after_addOrUpdateWindow st h flags ids firstDownTime :
  exists e,
    getTouchedWindow h (addOrUpdateWindow h flags ids firstDownTime st) = Returns e
    /\ windowHandle e = h
    /\ (forall i, Z.testbit ids i = true -> Z.testbit (pointerIds e) i = true)
    /\ (is_Some firstDownTime -> is_Some (firstDownTimeInTarget e)).
Proof.
  destruct (upsert_find h (mergeIntoWindow flags ids firstDownTime)
              (set_firstDownTimeInTarget firstDownTime
                 (set_pointerIds ids (set_targetFlags flags (newTouchedWindow h))))
              (windows st) (fun w => eq_refl) eq_refl) as (e & Hfind & He).
  exists e. unfold getTouchedWindow, addOrUpdateWindow.
  split.
  - destruct (updateFirst _ _ _); simpl; now rewrite Hfind.
  - destruct He as [(e0 & _ & He0 & ->)|[_ ->]]; simpl.
    + repeat split; [assumption| |].
      * intros i Hi. rewrite Z.lor_spec, Hi. apply orb_true_r.
      * intros Ht. destruct (firstDownTimeInTarget e0); [eauto|assumption].
    + repeat split; auto.
Qed.

(** *** isDown *)

Lemma any_lor a b : BitSet.any (Z.lor a b) = BitSet.any a || BitSet.any b.
Proof.
  unfold BitSet.any, BitSet.none.
  destruct (Z.eqb_spec (Z.lor a b) 0) as [E|E].
  - apply Z.lor_eq_0_iff in E as [-> ->]. reflexivity.
  - destruct (Z.eqb_spec a 0) as [->|Ha]; [|reflexivity].
    destruct (Z.eqb_spec b 0) as [->|Hb]; [|reflexivity].
    now contradict E.
Qed.

(** X5: the state is down after addOrUpdateWindow exactly when it was down
    before or the call brought a pointer; so a call with a non-empty pointer
    set always leaves the state down, and no call ends a touch. *)
Theorem isDown_addOrUpdateWindow st h flags ids firstDownTime :
  isDown (addOrUpdateWindow h flags ids firstDownTime st) = isDown st || BitSet.any ids.
Proof.
  unfold isDown, addOrUpdateWindow.
  destruct (updateFirst _ _ _) as [ws'|] eqn:E; simpl.
  - apply updateFirst_some in E as (pre & e & post & -> & _ & _ & ->).
    rewrite !existsb_app. simpl. rewrite any_lor.
    destruct (existsb _ pre), (BitSet.any (pointerIds e)), (existsb _ post),
      (BitSet.any ids); reflexivity.
  - rewrite existsb_app. simpl. now rewrite orb_false_r.
Qed.

(** *** getFirstForegroundWindowHandle *)

Lemma find_split (p : Window -> bool) ws e :
  List.find p ws = Some e <->
  exists pre post,
    ws = pre ++ e :: post /\ Forall (fun x => p x = false) pre /\ p e = true.
Proof.
  split.
  - induction ws as [|x ws IH]; simpl; [discriminate|].
    destruct (p x) eqn:Hx.
    + intros [= <-]. exists [], ws. repeat split; auto.
    + intros Hf. destruct (IH Hf) as (pre & post & -> & Hpre & He).
      exists (x :: pre), post. repeat split; auto.
  - intros (pre & post & -> & Hpre & He). now apply find_first.
Qed.

Lemma find_none_iff (p : Window -> bool) ws :
  List.find p ws = None <-> Forall (fun x => p x = false) ws.
Proof.
  split; [|apply find_absent].
  intros Hf. apply Forall_forall. intros x Hx.
  apply (find_none _ _ Hf). now apply list_elem_of_In.
Qed.

Lemma getFirstForegroundWindowHandle_find ws :
  getFirstForegroundWindowHandle_loop ws =
  option_map windowHandle (List.find isForeground ws).
Proof.
  induction ws as [|x ws IH]; simpl; [reflexivity|].
  destruct (isForeground x); [reflexivity|exact IH].
Qed.

Lemma filter_head_find (p : Window -> bool) ws w rest :
  List.filter p ws = w :: rest -> List.find p ws = Some w.
Proof.
  induction ws as [|x ws IH]; simpl; [discriminate|].
  destruct (p x); [now intros [= ->]|exact IH].
Qed.

(** X6: getFirstForegroundWindowHandle returns no handle exactly when no
    entry has the FOREGROUND flag, and otherwise the handle of the first
    entry that has it; whenever isSlippery holds, it returns a handle, and
    the window of that handle is slippery. *)
Theorem getFirstForegroundWindowHandle_spec st :
  (getFirstForegroundWindowHandle st = None <->
   Forall (fun w => isForeground w = false) (windows st))
  /\ (forall h,
        getFirstForegroundWindowHandle st = Some h <->
        exists pre e post,
          windows st = pre ++ e :: post
          /\ Forall (fun w => isForeground w = false) pre
          /\ isForeground e = true /\ windowHandle e = h)
  /\ (isSlippery st = true ->
      exists h, getFirstForegroundWindowHandle st = Some h
                /\ Flags.test (inputConfig h) SLIPPERY = true).
Proof.
  unfold getFirstForegroundWindowHandle. rewrite getFirstForegroundWindowHandle_find.
  split; [|split].
  - rewrite <- find_none_iff. destruct (List.find isForeground (windows st)); simpl.
    + split; discriminate.
    + split; reflexivity.
  - intros h. split.
    + destruct (List.find isForeground (windows st)) as [e|] eqn:E; [|discriminate].
      intros [= <-]. apply find_split in E as (pre & post & Hws & Hpre & He).
      exists pre, e, post. repeat split; assumption.
    + intros (pre & e & post & Hws & Hpre & He & <-).
      rewrite (proj2 (find_split isForeground (windows st) e)); [reflexivity|].
      exists pre, post. repeat split; assumption.
  - intros Hs. apply isSlippery_loop_unseen in Hs as (w & Hw & Hslip).
    exists (windowHandle w). rewrite (filter_head_find _ _ _ _ Hw). split; [reflexivity|].
    exact Hslip.
Qed.

(** *** cancelPointersForWindowsExcept *)

(** X7: after cancelPointersForWindowsExcept with a non-empty pointer set,
    every entry left has a touching pointer; no entry of another token
    touches any of the cancelled pointers; and every entry of the excepted
    token that had a touching pointer is still there, unchanged. *)
Theorem cancelPointersForWindowsExcept_exclusive st ids token :
  ids <> 0 ->
  Forall (fun w => pointerIds w <> 0) (windows (cancelPointersForWindowsExcept ids token st))
  /\ (forall w i,
        w ∈ windows (cancelPointersForWindowsExcept ids token st) ->
        getToken (windowHandle w) <> token ->
        0 <= i <= MAX_POINTER_ID ->
        Z.testbit ids i = true ->
        Z.testbit (pointerIds w) i = false)
  /\ (forall w,
        w ∈ windows st -> getToken (windowHandle w) = token -> pointerIds w <> 0 ->
        w ∈ windows (cancelPointersForWindowsExcept ids token st)).
Proof.
  intros Hids.
  destruct (cancelPointersForWindowsExcept_effect st ids token)
    as (_ & Hws & Hsame & Hbits).
  rewrite (Hws Hids). clear Hws.
  assert (Hany : forall w, BitSet.any (pointerIds w) = true <-> pointerIds w <> 0).
  { intros w. unfold BitSet.any, BitSet.none. now rewrite negb_true_iff, Z.eqb_neq. }
  split; [|split].
  - apply Forall_forall. intros w Hw%filter_elem. now apply Hany.
  - intros w i [Hw _]%filter_elem Htok Hi Hbit.
    apply map_elem in Hw as (w0 & _ & ->).
    rewrite cancelExcept_handle in Htok.
    rewrite Hbits, Hbit by assumption. apply andb_false_r.
  - intros w Hw Htok Hp. apply filter_elem. split; [|now apply Hany].
    apply map_elem. exists w. split; [assumption|]. symmetry. now apply Hsame.
Qed.

(** *** cancelPointersForNonPilferingWindows *)

Lemma cancelled_entry st w' :
  allPilferedPointerIds (windows st) <> 0 ->
  w' ∈ windows (cancelPointersForNonPilferingWindows st) <->
  pointerIds w' <> 0
  /\ exists w, w ∈ windows st
               /\ w' = cancelPilferedByOthers (allPilferedPointerIds (windows st)) w.
Proof.
  intros Hsome. unfold cancelPointersForNonPilferingWindows, BitSet.none.
  rewrite (proj2 (Z.eqb_neq _ _) Hsome). simpl.
  rewrite erase_if_elem, map_elem. unfold noTouchingPointers, BitSet.none.
  rewrite Z.eqb_neq. tauto.
Qed.

(** X8: when some entry of the state pilfers a pointer, then after
    cancelPointersForNonPilferingWindows every entry that still touches
    that pointer is an entry that pilfers it. *)
Theorem cancelPointersForNonPilferingWindows_exclusive st i w0 w' :
  0 <= i <= MAX_POINTER_ID ->
  w0 ∈ windows st ->
  Z.testbit (pilferedPointerIds w0) i = true ->
  w' ∈ windows (cancelPointersForNonPilferingWindows st) ->
  Z.testbit (pointerIds w') i = true ->
  Z.testbit (pilferedPointerIds w') i = true.
Proof.
  intros Hi Hw0 Hpil Hw' Htouch.
  assert (Hall : Z.testbit (allPilferedPointerIds (windows st)) i = true).
  { apply allPilfered_bits. now exists w0. }
  assert (Hsome : allPilferedPointerIds (windows st) <> 0).
  { intros E. rewrite E, Z.bits_0 in Hall. discriminate. }
  apply (cancelled_entry st w' Hsome) in Hw' as (_ & w & _ & ->).
  rewrite cancelPilferedByOthers_bits, Hall in Htouch by assumption. simpl in *.
  destruct (Z.testbit (pilferedPointerIds w) i); [reflexivity|].
  now rewrite andb_false_r in Htouch.
Qed.

Lemma map_fixed (f : Window -> Window) ws :
  Forall (fun w => f w = w) ws -> map f ws = ws.
Proof. induction 1 as [|x ws Hx _ IH]; simpl; [reflexivity|]. now rewrite Hx, IH. Qed.

Lemma valid_high a i :
  validPointerIds a -> MAX_POINTER_ID < i -> Z.testbit a i = false.
Proof.
  unfold validPointerIds, BitSet.size, MAX_POINTER_ID. intros Ha Hi.
  apply (proj1 (Z.bounded_iff_bits_nonneg 32 a ltac:(lia) ltac:(lia))); lia.
Qed.

(** X9: on a state whose touching sets are values of the bit set type, a
    second call of cancelPointersForNonPilferingWindows changes nothing. *)
Theorem cancelPointersForNonPilferingWindows_idempotent st :
  Forall (fun w => validPointerIds (pointerIds w)) (windows st) ->
  cancelPointersForNonPilferingWindows (cancelPointersForNonPilferingWindows st) =
  cancelPointersForNonPilferingWindows st.
Proof.
  intros Hvalid.
  destruct (Z.eq_dec (allPilferedPointerIds (windows st)) 0) as [Hnone|Hsome].
  { unfold cancelPointersForNonPilferingWindows at 2. rewrite Hnone. simpl.
    unfold cancelPointersForNonPilferingWindows. now rewrite Hnone. }
  set (st1 := cancelPointersForNonPilferingWindows st).
  assert (Hin : forall w', w' ∈ windows st1 <->
                  pointerIds w' <> 0
                  /\ exists w, w ∈ windows st
                       /\ w' = cancelPilferedByOthers (allPilferedPointerIds (windows st)) w)
    by (intros; now apply cancelled_entry).
  unfold cancelPointersForNonPilferingWindows at 1.
  destruct (BitSet.none (allPilferedPointerIds (windows st1))); [reflexivity|].
  transitivity (set_windows (windows st1) st1); [|apply set_windows_same]. f_equal.
  assert (Hfix : Forall (fun w' => cancelPilferedByOthers
                            (allPilferedPointerIds (windows st1)) w' = w') (windows st1)).
  { apply Forall_forall. intros w' Hw'. pose proof Hw' as Hw1.
    apply Hin in Hw' as (_ & w & Hw & ->).
    unfold cancelPilferedByOthers at 1, set_pointerIds. simpl.
    unfold cancelPilferedByOthers, set_pointerIds. f_equal.
    assert (Hv : validPointerIds (pointerIds w))
      by exact (proj1 (Forall_forall _ _) Hvalid w Hw).
    apply Z.bits_inj'. intros i Hi.
    destruct (Z_le_gt_dec i MAX_POINTER_ID) as [Hle|Hgt].
    - rewrite testbit_and_not by lia. rewrite Z.lxor_spec.
      rewrite testbit_and_not by lia. rewrite Z.lxor_spec.
      destruct (Z.testbit (pointerIds w) i); [simpl|reflexivity].
      destruct (Z.testbit (pilferedPointerIds w) i) eqn:Hq.
      + assert (Z.testbit (allPilferedPointerIds (windows st1)) i = true) as ->.
        { apply allPilfered_bits. eexists. split; [exact Hw1|exact Hq]. }
        simpl. now rewrite andb_true_r.
      + destruct (Z.testbit (allPilferedPointerIds (windows st)) i) eqn:Ha;
          [reflexivity|]. simpl.
        destruct (Z.testbit (allPilferedPointerIds (windows st1)) i) eqn:Ha1;
          [|reflexivity].
        apply allPilfered_bits in Ha1 as (w1 & Hw1' & Hq1).
        apply Hin in Hw1' as (_ & w2 & Hw2 & ->). simpl in Hq1.
        assert (Z.testbit (allPilferedPointerIds (windows st)) i = true)
          by (apply allPilfered_bits; now exists w2).
        congruence.
    - unfold BitSet.and_not. rewrite !Z.land_spec, (valid_high _ i Hv) by lia.
      reflexivity. }
  rewrite (map_fixed _ _ Hfix). unfold erase_if. apply filter_all.
  apply Forall_forall. intros w' Hw'. apply Hin in Hw' as (Hp & _).
  unfold noTouchingPointers, BitSet.none. now rewrite negb_true_iff, Z.eqb_neq.
Qed.

(** *** filterNonAsIsTouchWindows, once more *)

Lemma test_self f : Flags.test f f = true.
Proof. apply test_true_iff. apply Z.land_diag. Qed.

Lemma dispatchAsIs_has_as_is w :
  Flags.test (targetFlags (dispatchAsIs w)) DISPATCH_AS_IS = true.
Proof. simpl. apply test_union_r, test_self. Qed.

Lemma dispatchAsIs_idempotent w : dispatchAsIs (dispatchAsIs w) = dispatchAsIs w.
Proof.
  unfold dispatchAsIs, set_targetFlags. simpl. f_equal.
  unfold Flags.union. apply Z.bits_inj'. intros i Hi.
  rewrite !Z.lor_spec, !testbit_clear, Z.lor_spec, testbit_clear by lia.
  destruct (Z.testbit (targetFlags w) i), (i <? 32), (Z.testbit DISPATCH_MASK i),
    (Z.testbit DISPATCH_AS_IS i); reflexivity.
Qed.

Lemma any_superset x f m :
  f <> 0 -> Flags.test x f = true -> Flags.any x (Flags.union f m) = true.
Proof.
  intros Hf Hx. unfold Flags.any, Flags.union. apply negb_true_iff, Z.eqb_neq.
  intros E. apply Hf. apply Z.bits_inj'. intros i Hi. rewrite Z.bits_0.
  assert (H := f_equal (fun z => Z.testbit z i) E). simpl in H.
  rewrite Z.land_spec, Z.lor_spec, Z.bits_0 in H.
  pose proof (test_bits _ _ Hx i) as Hb.
  destruct (Z.testbit f i); [|reflexivity].
  rewrite Hb in H by reflexivity. discriminate.
Qed.

Lemma filterNonAsIs_as_is ws :
  Forall (fun w => Flags.test (targetFlags w) DISPATCH_AS_IS = true) (filterNonAsIs ws).
Proof.
  induction ws as [|x ws IH]; simpl; [constructor|].
  destruct (Flags.any _ _); [|exact IH].
  constructor; [apply dispatchAsIs_has_as_is|exact IH].
Qed.

Lemma filterNonAsIs_idempotent ws :
  DISPATCH_AS_IS <> 0 -> filterNonAsIs (filterNonAsIs ws) = filterNonAsIs ws.
Proof.
  intros Hasis. induction ws as [|x ws IH]; simpl; [reflexivity|].
  destruct (Flags.any (targetFlags x) _) eqn:Hx; [|exact IH].
  cbn [filterNonAsIs].
  rewrite (any_superset _ _ _ Hasis (dispatchAsIs_has_as_is x)).
  now rewrite dispatchAsIs_idempotent, IH.
Qed.

(** X10: whatever the flag values, every entry that
    filterNonAsIsTouchWindows leaves includes DISPATCH_AS_IS; and when
    DISPATCH_AS_IS is not the empty flag, a second call changes nothing. *)
Theorem filterNonAsIsTouchWindows_idempotent st :
  Forall (fun w => Flags.test (targetFlags w) DISPATCH_AS_IS = true)
    (windows (filterNonAsIsTouchWindows st))
  /\ (DISPATCH_AS_IS <> 0 ->
      filterNonAsIsTouchWindows (filterNonAsIsTouchWindows st) =
      filterNonAsIsTouchWindows st).
Proof.
  split; [apply filterNonAsIs_as_is|].
  intros Hasis. unfold filterNonAsIsTouchWindows, set_windows. simpl.
  now rewrite filterNonAsIs_idempotent.
Qed.

End MoreProperties.

(** ** Hovering pointers and the wallpaper window *)

Section HoverProperties.

Context {WindowInfoHandle : Type}.
Context {handleOps : WindowInfoHandleOps WindowInfoHandle}.
Context {inputConfigValues : WindowInfoInputConfig}.
Context {handleCountable : Countable WindowInfoHandle}.

Local Abbreviation Window := (TouchedWindow WindowInfoHandle).
Local Abbreviation State := (TouchState WindowInfoHandle).

Implicit Types (w e : Window) (ws pre post : list Window) (st : State).
Implicit Types (h : WindowInfoHandle).

Lemma hovering_fold d p ws (acc : gset WindowInfoHandle) h :
  h ∈ fold_left
        (fun out w => if hasHoveringPointer d p w then out ∪ {[ windowHandle w ]} else out)
        ws acc <->
  h ∈ acc \/ exists w, w ∈ ws /\ windowHandle w = h /\ hasHoveringPointer d p w = true.
Proof.
  revert acc. induction ws as [|x ws IH]; intros acc; simpl.
  - split; [now left|]. intros [H|(w & Hw & _)]; [assumption|].
    now apply not_elem_of_nil in Hw.
  - rewrite IH. split.
    + intros [Hacc|(w & Hw & Hh & Hp)].
      * destruct (hasHoveringPointer d p x) eqn:Hx; [|now left].
        apply elem_of_union in Hacc as [Hacc|Hacc%elem_of_singleton]; [now left|].
        right. exists x. split; [apply list_elem_of_here|now split].
      * right. exists w. split; [now apply list_elem_of_further|now split].
    + intros [Hacc|(w & Hw & Hh & Hp)].
      * left. destruct (hasHoveringPointer d p x); [|assumption].
        apply elem_of_union. now left.
      * apply elem_of_cons in Hw as [->|Hw].
        -- left. rewrite Hp. apply elem_of_union. right. now apply elem_of_singleton.
        -- right. exists w. now repeat split.
Qed.

Lemma hovering_windows_elem st d p h :
  h ∈ getWindowsWithHoveringPointer d p st <->
  exists w, w ∈ windows st /\ windowHandle w = h /\ hasHoveringPointer d p w = true.
Proof.
  unfold getWindowsWithHoveringPointer. rewrite hovering_fold. split.
  - intros [Hempty|H]; [now apply not_elem_of_empty in Hempty|exact H].
  - now right.
Qed.

(** X11: a window handle is in the result of getWindowsWithHoveringPointer
    exactly when some entry of that handle records the given device and
    pointer as hovering, whatever the touching set of the entry; so the
    result is empty exactly when no entry records the pair. *)
Theorem getWindowsWithHoveringPointer_spec st hoveringDeviceId pointerId :
  (forall h,
      h ∈ getWindowsWithHoveringPointer hoveringDeviceId pointerId st <->
      exists w, w ∈ windows st /\ windowHandle w = h
                /\ hasHoveringPointer hoveringDeviceId pointerId w = true)
  /\ (getWindowsWithHoveringPointer hoveringDeviceId pointerId st = ∅ <->
      Forall (fun w => hasHoveringPointer hoveringDeviceId pointerId w = false)
        (windows st)).
Proof.
  split; [intros h; apply hovering_windows_elem|].
  rewrite elem_of_equiv_empty_L, Forall_forall. split.
  - intros Hempty w Hw. apply not_true_is_false. intros Hp.
    apply (Hempty (windowHandle w)), hovering_windows_elem. now exists w.
  - intros Hnone h (w & Hw & _ & Hp)%hovering_windows_elem.
    rewrite (Hnone w Hw) in Hp. discriminate.
Qed.

Lemma getWallpaperWindow_find ws :
  getWallpaperWindow_loop ws = option_map windowHandle (List.find isWallpaperWindow ws).
Proof.
  induction ws as [|x ws IH]; simpl; [reflexivity|].
  destruct (isWallpaperWindow x); [reflexivity|exact IH].
Qed.

(** X12: getWallpaperWindow returns no handle exactly when no entry's window
    has IS_WALLPAPER in its input configuration, and otherwise the handle of
    the first entry whose window has it. *)
Theorem getWallpaperWindow_spec st :
  (getWallpaperWindow st = None <->
   Forall (fun w => isWallpaperWindow w = false) (windows st))
  /\ (forall h,
        getWallpaperWindow st = Some h <->
        exists pre e post,
          windows st = pre ++ e :: post
          /\ Forall (fun w => isWallpaperWindow w = false) pre
          /\ isWallpaperWindow e = true /\ windowHandle e = h).
Proof.
  unfold getWallpaperWindow. rewrite getWallpaperWindow_find. split.
  - rewrite <- find_none_iff. destruct (List.find isWallpaperWindow (windows st)); simpl.
    + split; discriminate.
    + split; reflexivity.
  - intros h. split.
    + destruct (List.find isWallpaperWindow (windows st)) as [e|] eqn:E; [|discriminate].
      intros [= <-]. apply find_split in E as (pre & post & Hws & Hpre & He).
      exists pre, e, post. repeat split; assumption.
    + intros (pre & e & post & Hws & Hpre & He & <-).
      rewrite (proj2 (find_split isWallpaperWindow (windows st) e)); [reflexivity|].
      exists pre, post. repeat split; assumption.
Qed.

(** *** removeHoveringPointer and addHoveringPointerToWindow *)

Lemma removed_not_hovering d p w :
  hasHoveringPointer d p (removeHoveringPointer_window d p w) = false.
Proof.
  unfold hasHoveringPointer. simpl. apply bool_decide_eq_false_2.
  rewrite elem_of_difference, elem_of_singleton. tauto.
Qed.

Lemma added_hovering d p w : hasHoveringPointer d p (addHoveringPointer d p w) = true.
Proof.
  unfold hasHoveringPointer. simpl. apply bool_decide_eq_true_2.
  apply elem_of_union. left. now apply elem_of_singleton.
Qed.

Lemma remove_after_add d p w :
  removeHoveringPointer_window d p (addHoveringPointer d p w) =
  removeHoveringPointer_window d p w.
Proof.
  unfold removeHoveringPointer_window, addHoveringPointer, set_hoveringPointers. simpl.
  f_equal. apply set_eq. intros x.
  rewrite !elem_of_difference, elem_of_union, elem_of_singleton. tauto.
Qed.

Lemma removeHoveringPointer_entry st d p w' :
  w' ∈ windows (removeHoveringPointer d p st) <->
  (pointerIds w' <> 0 \/ hasHoveringPointers w' = true)
  /\ exists w, w ∈ windows st /\ w' = removeHoveringPointer_window d p w.
Proof.
  unfold removeHoveringPointer. simpl.
  rewrite erase_if_elem, map_elem, withoutPointers_false. tauto.
Qed.

(** X13: with the hovering set operations of TouchedWindow as insertion and
    removal of the pair, removeHoveringPointer leaves no entry that records
    the pair, so the lookup of the pair is empty afterwards; every entry
    left has a touching or a hovering pointer; and an entry that touches a
    pointer is never erased, it only loses the pair. *)
Theorem removeHoveringPointer_spec st hoveringDeviceId hoveringPointerId :
  Forall (fun w => hasHoveringPointer hoveringDeviceId hoveringPointerId w = false)
    (windows (removeHoveringPointer hoveringDeviceId hoveringPointerId st))
  /\ getWindowsWithHoveringPointer hoveringDeviceId hoveringPointerId
       (removeHoveringPointer hoveringDeviceId hoveringPointerId st) = ∅
  /\ Forall (fun w => pointerIds w <> 0 \/ hasHoveringPointers w = true)
       (windows (removeHoveringPointer hoveringDeviceId hoveringPointerId st))
  /\ (forall w,
        w ∈ windows st -> pointerIds w <> 0 ->
        removeHoveringPointer_window hoveringDeviceId hoveringPointerId w
        ∈ windows (removeHoveringPointer hoveringDeviceId hoveringPointerId st)).
Proof.
  assert (Hgone : Forall
            (fun w => hasHoveringPointer hoveringDeviceId hoveringPointerId w = false)
            (windows (removeHoveringPointer hoveringDeviceId hoveringPointerId st))).
  { apply Forall_forall. intros w' (_ & w & _ & ->)%removeHoveringPointer_entry.
    apply removed_not_hovering. }
  split; [exact Hgone|]. split; [|split].
  - apply elem_of_equiv_empty_L. intros h (w & Hw & _ & Hp)%hovering_windows_elem.
    rewrite (proj1 (Forall_forall _ _) Hgone w Hw) in Hp. discriminate.
  - apply Forall_forall. now intros w' (Hp & _)%removeHoveringPointer_entry.
  - intros w Hw Hp. apply removeHoveringPointer_entry. split; [now left|].
    now exists w.
Qed.

(** X14: with the same reading of the hovering set operations, after
    addHoveringPointerToWindow for a window handle the lookup of the pair
    holds that handle; and removing the pair right after adding it gives
    the state that removing it alone gives, so an entry created only to
    hold the pair is erased again. *)
Theorem addHoveringPointerToWindow_round_trip st h hoveringDeviceId hoveringPointerId :
  h ∈ getWindowsWithHoveringPointer hoveringDeviceId hoveringPointerId
        (addHoveringPointerToWindow h hoveringDeviceId hoveringPointerId st)
  /\ removeHoveringPointer hoveringDeviceId hoveringPointerId
       (addHoveringPointerToWindow h hoveringDeviceId hoveringPointerId st) =
     removeHoveringPointer hoveringDeviceId hoveringPointerId st.
Proof.
  split.
  - apply hovering_windows_elem. unfold addHoveringPointerToWindow.
    destruct (updateFirst _ _ _) as [ws'|] eqn:E; simpl.
    + apply updateFirst_some in E as (pre & e & post & _ & _ & He & ->).
      exists (addHoveringPointer hoveringDeviceId hoveringPointerId e).
      split; [set_solver|]. split; [now apply sameHandle_true|apply added_hovering].
    + eexists. split; [apply elem_of_app; right; apply list_elem_of_here|].
      split; [reflexivity|apply added_hovering].
  - unfold removeHoveringPointer, addHoveringPointerToWindow.
    destruct (updateFirst _ _ _) as [ws'|] eqn:E; unfold set_windows; simpl; f_equal.
    + apply updateFirst_some in E as (pre & e & post & -> & _ & _ & ->).
      rewrite !map_app. simpl. now rewrite remove_after_add.
    + rewrite map_app. unfold erase_if. rewrite List.filter_app. simpl.
      rewrite remove_after_add.
      assert (withoutPointers
                (removeHoveringPointer_window hoveringDeviceId hoveringPointerId
                   (newTouchedWindow h)) = true) as ->.
      { unfold withoutPointers, hasHoveringPointers. simpl.
        rewrite bool_decide_eq_true_2; [reflexivity|].
        apply set_eq. intros x. rewrite elem_of_difference.
        split; [intros [Hx _]|intros Hx]; now apply not_elem_of_empty in Hx. }
      simpl. apply app_nil_r.
Qed.

(** *** clearHoveringPointers *)

Lemma cleared_not_hovering w : hasHoveringPointers (clearHoveringPointers_window w) = false.
Proof. unfold hasHoveringPointers. simpl. now rewrite bool_decide_eq_true_2. Qed.

(** X15: clearHoveringPointers erases no entry, even one that is left with
    no pointer at all: the handles and the touching sets stay as they were.
    With the hovering set emptied by TouchedWindow::clearHoveringPointers,
    no pair is found hovering afterwards, and a following
    clearWindowsWithoutPointers keeps exactly the entries that touch a
    pointer. *)
Theorem clearHoveringPointers_spec st :
  handles (clearHoveringPointers st) = handles st
  /\ map pointerIds (windows (clearHoveringPointers st)) = map pointerIds (windows st)
  /\ (forall d p, getWindowsWithHoveringPointer d p (clearHoveringPointers st) = ∅)
  /\ windows (clearWindowsWithoutPointers (clearHoveringPointers st)) =
     map clearHoveringPointers_window
       (List.filter (fun w => BitSet.any (pointerIds w)) (windows st)).
Proof.
  unfold clearHoveringPointers, handles. simpl. split; [|split; [|split]].
  - now rewrite map_map.
  - now rewrite map_map.
  - intros d p. apply elem_of_equiv_empty_L.
    intros h (w' & (w & Hw & ->)%map_elem & _ & Hp)%hovering_windows_elem.
    unfold hasHoveringPointer in Hp. simpl in Hp.
    rewrite bool_decide_eq_false_2 in Hp; [discriminate|apply not_elem_of_empty].
  - rewrite erase_if_map. f_equal. apply filter_ext. intros w.
    unfold withoutPointers. rewrite cleared_not_hovering. simpl.
    now rewrite andb_true_r.
Qed.

End HoverProperties.

(** ** The exclusion of DISPATCH_AS_IS by DISPATCH_AS_SLIPPERY_EXIT, kept *)

Section ExclusionProperties.

Context {WindowInfoHandle : Type}.
Context {handleOps : WindowInfoHandleOps WindowInfoHandle}.
Context {targetFlagValues : InputTargetFlags}.

Local Abbreviation Window := (TouchedWindow WindowInfoHandle).
Local Abbreviation State := (TouchState WindowInfoHandle).

Implicit Types (w e : Window) (ws pre post : list Window) (st : State).
Implicit Types (h : WindowInfoHandle).

Local Abbreviation obeys := (fun w : Window => exitExcludesAsIs (targetFlags w)).

Lemma flag_nonzero f : Flags.is_flag f -> f <> 0.
Proof.
  intros (n & Hn & ->). rewrite Z.shiftl_1_l.
  apply Z.pow_nonzero; lia.
Qed.

Lemma flag_range f : Flags.is_flag f -> 0 <= f < 2 ^ 32.
Proof.
  intros (n & Hn & ->). rewrite Z.shiftl_1_l. split.
  - apply Z.pow_nonneg. lia.
  - apply Z.pow_lt_mono_r; lia.
Qed.

Lemma flags_disjoint f g : Flags.is_flag f -> Flags.is_flag g -> f <> g -> Z.land f g = 0.
Proof.
  intros (a & Ha & ->) (b & Hb & ->) Hne. rewrite !Z.shiftl_1_l in *.
  apply Z.bits_inj'. intros i Hi.
  rewrite Z.land_spec, !Z.pow2_bits_eqb, Z.bits_0 by lia.
  destruct (Z.eqb_spec a i), (Z.eqb_spec b i); subst; try reflexivity.
  now contradict Hne.
Qed.

Lemma test_lor_flag x y f :
  Flags.is_flag f -> Flags.test (Z.lor x y) f = Flags.test x f || Flags.test y f.
Proof.
  intros (n & Hn & ->). rewrite !test_flag_bit by lia. apply Z.lor_spec.
Qed.

Lemma test_zero_flag f : Flags.is_flag f -> Flags.test 0 f = false.
Proof.
  intros (n & Hn & ->). rewrite test_flag_bit by lia. apply Z.bits_0.
Qed.

Lemma test_distinct_flag f g :
  Flags.is_flag f -> Flags.is_flag g -> f <> g -> Flags.test f g = false.
Proof.
  intros Hf Hg Hne. unfold Flags.test. apply Z.eqb_neq.
  rewrite Z.land_comm, (flags_disjoint f g Hf Hg Hne).
  intros E. now apply (flag_nonzero g).
Qed.

Lemma test_clear_masked x m f :
  Flags.is_flag f -> Flags.test m f = true -> Flags.test (Flags.clear x m) f = false.
Proof.
  intros Hf Hm. pose proof Hf as (n & Hn & ->).
  rewrite test_flag_bit in * by lia. rewrite testbit_clear, Hm by lia.
  now rewrite !andb_false_r.
Qed.

Lemma Forall_updateFirst (P : Window -> Prop) p f ws ws' :
  (forall w, P w -> P (f w)) ->
  Forall P ws -> updateFirst p f ws = Some ws' -> Forall P ws'.
Proof.
  intros Hf Hws E. apply updateFirst_some in E as (pre & e & post & -> & _ & _ & ->).
  apply Forall_app in Hws as [Hpre Hrest]. apply Forall_cons in Hrest as [He Hpost].
  apply Forall_app. split; [assumption|]. apply Forall_cons. split; auto.
Qed.

Lemma Forall_mapped (P : Window -> Prop) f ws :
  (forall w, P w -> P (f w)) -> Forall P ws -> Forall P (map f ws).
Proof. intros Hf. induction 1; simpl; constructor; auto. Qed.

Lemma Forall_erase_if (P : Window -> Prop) p ws :
  Forall P ws -> Forall P (erase_if p ws).
Proof.
  unfold erase_if. induction 1 as [|x ws Hx _ IH]; simpl; [constructor|].
  destruct (p x); simpl; [assumption|now constructor].
Qed.

Lemma Forall_eraseFirstByToken (P : Window -> Prop) token ws :
  Forall P ws -> Forall P (eraseFirstByToken token ws).
Proof.
  induction 1 as [|x ws Hx Hws IH]; simpl; [constructor|].
  case_bool_decide; [assumption|now constructor].
Qed.

Section WithFlagFacts.

Hypothesis as_is_flag : Flags.is_flag DISPATCH_AS_IS.
Hypothesis exit_flag : Flags.is_flag DISPATCH_AS_SLIPPERY_EXIT.
Hypothesis distinct_flags : DISPATCH_AS_IS <> DISPATCH_AS_SLIPPERY_EXIT.
Hypothesis exit_in_mask : Flags.test DISPATCH_MASK DISPATCH_AS_SLIPPERY_EXIT = true.

Lemma dispatchAsIs_obeys w : obeys (dispatchAsIs w).
Proof.
  unfold exitExcludesAsIs. simpl. unfold Flags.union.
  rewrite test_lor_flag, test_clear_masked, test_distinct_flag by assumption.
  discriminate.
Qed.

Lemma filterNonAsIs_obeys ws : Forall obeys (filterNonAsIs ws).
Proof.
  induction ws as [|x ws IH]; simpl; [constructor|].
  destruct (Flags.any _ _); [|exact IH].
  constructor; [apply dispatchAsIs_obeys|exact IH].
Qed.

Lemma mergeIntoWindow_obeys flags ids firstDownTime e :
  obeys e ->
  obeys (mergeIntoWindow flags ids firstDownTime e) <->
  Flags.test flags DISPATCH_AS_SLIPPERY_EXIT = true
  \/ Flags.test flags DISPATCH_AS_IS = false
  \/ Flags.test (targetFlags e) DISPATCH_AS_SLIPPERY_EXIT = false.
Proof.
  intros He. unfold exitExcludesAsIs in *. simpl.
  destruct (Flags.test flags DISPATCH_AS_SLIPPERY_EXIT) eqn:Hexit.
  - split; [now left|]. intros _ _. apply test_clear_same. now apply flag_nonzero.
  - unfold Flags.union. rewrite !test_lor_flag, Hexit by assumption.
    destruct (Flags.test (targetFlags e) DISPATCH_AS_SLIPPERY_EXIT),
      (Flags.test (targetFlags e) DISPATCH_AS_IS),
      (Flags.test flags DISPATCH_AS_IS); simpl in *;
      try (specialize (He eq_refl); discriminate); intuition congruence.
Qed.

Lemma run_other_exclusive st (op : Operation WindowInfoHandle) :
  (forall h flags ids firstDownTime, op <> OpAddOrUpdateWindow h flags ids firstDownTime) ->
  exclusive st -> exclusive (run op st).
Proof.
  unfold exclusive. intros Hop Hst. destruct op; simpl.
  - constructor.
  - now apply Forall_mapped.
  - unfold removeTouchedPointerFromWindow.
    destruct (updateFirst _ _ _) eqn:E; [|assumption]. simpl.
    exact (Forall_updateFirst obeys _ (removeTouchingPointer pointerId) _ _
             (fun w H => H) Hst E).
  - now apply Forall_mapped.
  - now apply Forall_erase_if.
  - exfalso. now eapply Hop.
  - unfold addHoveringPointerToWindow.
    destruct (updateFirst _ _ _) eqn:E; simpl.
    + exact (Forall_updateFirst obeys _
               (addHoveringPointer hoveringDeviceId hoveringPointerId) _ _
               (fun w H => H) Hst E).
    + apply Forall_app. split; [assumption|]. constructor; [|constructor].
      unfold exitExcludesAsIs. simpl. now rewrite test_zero_flag.
  - now apply Forall_eraseFirstByToken.
  - apply filterNonAsIs_obeys.
  - unfold cancelPointersForWindowsExcept. destruct (BitSet.none ids); [assumption|].
    simpl. apply Forall_erase_if, Forall_mapped; [|assumption].
    intros w Hw. unfold cancelExcept. now case_bool_decide.
  - unfold cancelPointersForNonPilferingWindows. simpl.
    destruct (BitSet.none _); [assumption|].
    simpl. now apply Forall_erase_if, Forall_mapped.
  - now apply Forall_erase_if, Forall_mapped.
Qed.

Lemma addOrUpdateWindow_exclusive_iff st h flags ids firstDownTime :
  exclusive st ->
  exclusive (addOrUpdateWindow h flags ids firstDownTime st) <-> keepsExclusion h flags st.
Proof.
  unfold exclusive, keepsExclusion, addOrUpdateWindow. intros Hst.
  destruct (updateFirst _ _ _) as [ws'|] eqn:E; simpl.
  - apply updateFirst_some in E as (pre & e & post & Hws & Hpre & He & ->).
    rewrite Hws in *. rewrite (find_first _ _ _ _ Hpre He).
    apply Forall_app in Hst as [Hp Hrest]. apply Forall_cons in Hrest as [Hobeys Hq].
    rewrite Forall_app, Forall_cons, (mergeIntoWindow_obeys _ _ _ _ Hobeys). tauto.
  - apply updateFirst_none in E. rewrite (find_absent _ _ E).
    rewrite Forall_app, Forall_cons. simpl. split; [tauto|].
    intros Hflags. repeat split; [assumption|assumption|constructor].
Qed.

(** C4 (as amended): with DISPATCH_AS_IS and DISPATCH_AS_SLIPPERY_EXIT two
    different single bits and DISPATCH_AS_SLIPPERY_EXIT in DISPATCH_MASK: on
    a state in which every entry that includes DISPATCH_AS_SLIPPERY_EXIT
    lacks DISPATCH_AS_IS, every mutating operation other than
    addOrUpdateWindow leaves such a state, and addOrUpdateWindow leaves such
    a state exactly for the calls described by [keepsExclusion], that is,
    unless flags with DISPATCH_AS_IS and without DISPATCH_AS_SLIPPERY_EXIT
    update an entry that includes DISPATCH_AS_SLIPPERY_EXIT, or flags with
    both are inserted.  An entry updated with flags that include
    DISPATCH_AS_SLIPPERY_EXIT lacks DISPATCH_AS_IS and includes
    DISPATCH_AS_SLIPPERY_EXIT; an inserted entry carries exactly the given
    flags. *)
Theorem slippery_exit_exclusion st :
  (exclusive st ->
   forall op : Operation WindowInfoHandle,
     (forall h flags ids firstDownTime,
         op <> OpAddOrUpdateWindow h flags ids firstDownTime) ->
     exclusive (run op st))
  /\ (exclusive st ->
      forall h flags ids firstDownTime,
        exclusive (addOrUpdateWindow h flags ids firstDownTime st) <->
        keepsExclusion h flags st)
  /\ (forall h flags ids firstDownTime pre e post,
        Flags.test flags DISPATCH_AS_SLIPPERY_EXIT = true ->
        windows st = pre ++ e :: post ->
        windowHandle e = h ->
        Forall (fun x => windowHandle x <> h) pre ->
        exists e',
          windows (addOrUpdateWindow h flags ids firstDownTime st) = pre ++ e' :: post
          /\ windowHandle e' = h
          /\ Flags.test (targetFlags e') DISPATCH_AS_IS = false
          /\ Flags.test (targetFlags e') DISPATCH_AS_SLIPPERY_EXIT = true)
  /\ (forall h flags ids firstDownTime,
        Forall (fun x => windowHandle x <> h) (windows st) ->
        exists e',
          windows (addOrUpdateWindow h flags ids firstDownTime st) = windows st ++ [e']
          /\ windowHandle e' = h
          /\ targetFlags e' = flags
          /\ (exitExcludesAsIs (targetFlags e') <-> exitExcludesAsIs flags)).
Proof.
  split; [|split; [|split]].
  - intros Hst op Hop. now apply run_other_exclusive.
  - intros Hst h flags ids firstDownTime. now apply addOrUpdateWindow_exclusive_iff.
  - intros h flags ids firstDownTime pre e post Hexit Hws He Hpre.
    destruct (proj1 (addOrUpdateWindow_slippery_exit st h flags ids firstDownTime
                       (flag_nonzero _ as_is_flag) Hexit) pre e post Hws He Hpre)
      as (e' & Hws' & He' & Hasis & Hkeeps).
    exists e'. repeat split; try assumption.
    apply Hkeeps; [now apply flag_range|].
    apply flags_disjoint; auto.
  - intros h flags ids firstDownTime Hno.
    unfold addOrUpdateWindow. apply no_handle_scan in Hno.
    apply (updateFirst_none _ (mergeIntoWindow flags ids firstDownTime)) in Hno.
    rewrite Hno. eexists. split; [reflexivity|]. simpl. repeat split; auto.
Qed.

End WithFlagFacts.

End ExclusionProperties.

(** ** The further properties on concrete states *)

(** X1, concrete: handles 2 and 3 are two handles of the window of token 1;
    removing that token erases the entry of handle 2 only. *)
Lemma removeWindowByToken_sample :
  windows (removeWindowByToken 1 (state [windowA; T2; T3])) = [windowA; T3].
Proof.
  destruct (removeWindowByToken_first_only (state [windowA; T2; T3]) 1)
    as (_ & Hfirst & _).
  apply (Hfirst [windowA] T2 [T3] eq_refl eq_refl).
  repeat constructor. simpl. lia.
Defined.

(** X7, concrete: pointer 1 is cancelled for every window but the one of
    token 0; windowA, of token 0, stays as it is. *)
Lemma cancelPointersForWindowsExcept_sample :
  p1 <> 0
  /\ windowA ∈ windows (cancelPointersForWindowsExcept p1 0 (state [windowA; T2; T3])).
Proof.
  assert (Hids : p1 <> 0) by (vm_compute; discriminate).
  split; [exact Hids|].
  destruct (cancelPointersForWindowsExcept_exclusive (state [windowA; T2; T3]) p1 0 Hids)
    as (_ & _ & Hkept).
  apply Hkept; [apply list_elem_of_here|reflexivity|vm_compute; discriminate].
Defined.

(** X8, concrete: windowA pilfers pointer 1; the entry that touches
    pointer 1 after the call pilfers it. *)
Lemma cancelPointersForNonPilferingWindows_exclusive_sample :
  0 <= 1 <= MAX_POINTER_ID
  /\ Z.testbit (pilferedPointerIds windowA) 1 = true
  /\ Z.testbit
       (pilferedPointerIds (entry 0 (Z.lor FOREGROUND DISPATCH_AS_IS) p1 p1 (Some 100))) 1
     = true.
Proof.
  assert (Hi : 0 <= 1 <= MAX_POINTER_ID) by (unfold MAX_POINTER_ID; lia).
  assert (Hpil : Z.testbit (pilferedPointerIds windowA) 1 = true) by reflexivity.
  split; [exact Hi|]. split; [exact Hpil|].
  apply (cancelPointersForNonPilferingWindows_exclusive
           (state [windowA; windowB]) 1 windowA _ Hi);
    [apply list_elem_of_here|exact Hpil| |reflexivity].
  assert (Hws : windows (cancelPointersForNonPilferingWindows (state [windowA; windowB]))
                = [entry 0 (Z.lor FOREGROUND DISPATCH_AS_IS) p1 p1 (Some 100);
                   entry 2 DISPATCH_AS_IS p2 p2 (Some 100)]) by reflexivity.
  rewrite Hws. apply list_elem_of_here.
Defined.

(** X9, concrete: the touching sets {1,2} of windowA and windowB are values
    of the bit set type, and a second call changes nothing. *)
Lemma cancelPointersForNonPilferingWindows_idempotent_sample :
  Forall (fun w => validPointerIds (pointerIds w)) (windows (state [windowA; windowB]))
  /\ cancelPointersForNonPilferingWindows
       (cancelPointersForNonPilferingWindows (state [windowA; windowB])) =
     cancelPointersForNonPilferingWindows (state [windowA; windowB]).
Proof.
  assert (Hvalid : Forall (fun w => validPointerIds (pointerIds w))
                     (windows (state [windowA; windowB]))).
  { repeat constructor; vm_compute; easy. }
  split; [exact Hvalid|].
  exact (cancelPointersForNonPilferingWindows_idempotent _ Hvalid).
Defined.

(** X10, concrete: DISPATCH_AS_IS is a bit, and filtering the two
    overlapping windows twice gives what filtering them once gives. *)
Lemma filterNonAsIsTouchWindows_idempotent_sample :
  DISPATCH_AS_IS <> 0
  /\ filterNonAsIsTouchWindows (filterNonAsIsTouchWindows (state [W1; W2])) =
     filterNonAsIsTouchWindows (state [W1; W2]).
Proof.
  assert (Hasis : DISPATCH_AS_IS <> 0) by (vm_compute; discriminate).
  split; [exact Hasis|].
  exact (proj2 (filterNonAsIsTouchWindows_idempotent (state [W1; W2])) Hasis).
Defined.

(** C4, concrete: the flag values of the sample platform are distinct bits
    with DISPATCH_AS_SLIPPERY_EXIT in the mask; the state of windowA and
    windowB obeys the exclusion, and still does after
    filterNonAsIsTouchWindows and after an update of B's entry with
    DISPATCH_AS_SLIPPERY_EXIT, which leaves that entry without
    DISPATCH_AS_IS. *)
Lemma slippery_exit_exclusion_sample :
  exclusive (state [windowA; windowB])
  /\ exclusive (run OpFilterNonAsIsTouchWindows (state [windowA; windowB]))
  /\ keepsExclusion 2%nat DISPATCH_AS_SLIPPERY_EXIT (state [windowA; windowB])
  /\ exclusive (addOrUpdateWindow 2%nat DISPATCH_AS_SLIPPERY_EXIT p0 None
                  (state [windowA; windowB]))
  /\ exists e',
      windows (addOrUpdateWindow 2%nat DISPATCH_AS_SLIPPERY_EXIT p0 None
                 (state [windowA; windowB]))
      = [windowA; e']
      /\ Flags.test (targetFlags e') DISPATCH_AS_IS = false
      /\ Flags.test (targetFlags e') DISPATCH_AS_SLIPPERY_EXIT = true.
Proof.
  assert (Hasis : Flags.is_flag DISPATCH_AS_IS) by (exists 8; split; [lia|reflexivity]).
  assert (Hexit : Flags.is_flag DISPATCH_AS_SLIPPERY_EXIT)
    by (exists 12; split; [lia|reflexivity]).
  assert (Hdistinct : DISPATCH_AS_IS <> DISPATCH_AS_SLIPPERY_EXIT)
    by (vm_compute; discriminate).
  assert (Hmask : Flags.test DISPATCH_MASK DISPATCH_AS_SLIPPERY_EXIT = true) by reflexivity.
  assert (Hst : exclusive (state [windowA; windowB])).
  { repeat constructor; intros H; vm_compute in H; discriminate. }
  assert (Hkeeps : keepsExclusion 2%nat DISPATCH_AS_SLIPPERY_EXIT (state [windowA; windowB])).
  { unfold keepsExclusion. simpl. left. reflexivity. }
  destruct (slippery_exit_exclusion Hasis Hexit Hdistinct Hmask (state [windowA; windowB]))
    as (Hothers & Hupsert & Hupdate & _).
  split; [exact Hst|]. split; [|split; [exact Hkeeps|split]].
  - apply (Hothers Hst). discriminate.
  - apply (Hupsert Hst). exact Hkeeps.
  - destruct (Hupdate 2%nat DISPATCH_AS_SLIPPERY_EXIT p0 None [windowA] windowB [])
      as (e' & Hws & _ & Hno & Hyes); [reflexivity|reflexivity|reflexivity| |].
    + repeat constructor. simpl. lia.
    + exists e'. repeat split; assumption.
Defined.
